(** * bcoin PSBT (BIP-174): a shallow embedding of lib/psbt and its properties

    The development follows the source files one module per class:
    [bufio] (reader and writer of the bufio package, as far as the PSBT code
    calls them), [BufferMap] (the insertion-ordered map of the buffer-map
    package), [common] (psbt/common.js), [Path] (psbt/path.js), [PSBTInput]
    (psbt/input.js), [PSBTOutput] (psbt/output.js) and [PSBT] (psbt/psbt.js).
    The transaction, output, script and witness codecs of lib/primitives and
    lib/script, the secp256k1 key check and the hash160 digest are
    collaborators: the PSBT code is embedded over an arbitrary implementation
    of them ([Collaborators]), and the general statements hold for every
    implementation.  [Reference] is one implementation, on which the
    statements are run at the data of [Examples]. *)

From Stdlib Require Import ZArith List Bool Lia String Ascii QArith Lqa.
From Stdlib Require Import Strings.Byte.
From Stdlib Require Import DecimalString DecimalN.
Import ListNotations.
Open Scope Z_scope.

(** ** Bytes and errors *)

Definition bytes := list byte.

(** A byte as the number JavaScript sees in [buf[i]]. *)
Definition u8 (b : byte) : Z := Z.of_N (Byte.to_N b).

(** The byte stored by [buf[i] = num]: the low eight bits of [num]. *)
Definition byte_of_Z (z : Z) : byte :=
  match Byte.of_N (Z.to_N (z mod 256)) with
  | Some b => b
  | None => x00
  end.

Fixpoint bytes_eqb (a b : bytes) : bool :=
  match a, b with
  | [], [] => true
  | x :: a', y :: b' => Byte.eqb x y && bytes_eqb a' b'
  | _, _ => false
  end.

Definition len {A} (l : list A) : Z := Z.of_nat (List.length l).

(** What a failing call throws.  The assertion messages of the source are
    grouped under the error kinds of the design: 'Invalid PSBT magic bytes.'
    is [MalformedEnvelope], every 'Duplicate Key, ...' is [DuplicateField],
    'No unsigned transcation was provided.' is [MissingRequiredField],
    'Unsigned tx does not have empty scriptSigs and scriptWitnesses.' is
    [InvalidFieldCombination], the two public-key assertions are
    [InvalidKeyMaterial], 'Can not serialize PSBT without unsigned TX.' is
    [MissingTransaction] and a bare [assert(x)] is [AssertionFailed].  An
    out-of-bounds or non-canonical read of bufio is [FrameError], a call on
    [null] or of a missing method is [TypeError], a malformed path string is
    [ParseError].  [FuelExhausted] is the embedding's own: the loops below are
    written by recursion on a counter, and it marks a counter that ran out. *)
Inductive error : Set :=
| MalformedEnvelope
| FrameError
| DuplicateField
| MissingRequiredField
| InvalidFieldCombination
| InvalidKeyMaterial
| MissingTransaction
| AssertionFailed
| TypeError
| ParseError
| FuelExhausted.

Inductive result (A : Type) : Type :=
| Ok (a : A)
| Err (e : error).
Arguments Ok {A} a.
Arguments Err {A} e.

Definition bind {A B} (r : result A) (k : A -> result B) : result B :=
  match r with
  | Ok a => k a
  | Err e => Err e
  end.

Declare Scope result_scope.
Delimit Scope result_scope with result.
Notation "x <- c ;; k" := (bind c (fun x => k))
  (at level 61, c at next level, right associativity) : result_scope.
Notation "' p <- c ;; k" := (bind c (fun x => let p := x in k))
  (at level 61, p pattern, c at next level, right associativity) : result_scope.
Open Scope result_scope.

Definition assert (c : bool) (e : error) : result unit :=
  if c then Ok tt else Err e.

(** ** bufio: BufferReader, BufferWriter and the varint helpers *)

Module bufio.

(** A reader is [data.slice(offset)], the bytes not yet consumed. *)
Definition BufferReader := bytes.

Definition left (br : BufferReader) : Z := len br.

(** Little-endian and big-endian values of a byte string. *)
Fixpoint le_value (bs : bytes) : Z :=
  match bs with
  | [] => 0
  | b :: bs' => u8 b + 256 * le_value bs'
  end.

Definition be_value (bs : bytes) : Z := le_value (rev bs).

(** The [n] low bytes of [z], least significant first. *)
Fixpoint le_bytes (n : nat) (z : Z) : bytes :=
  match n with
  | O => []
  | S n' => byte_of_Z z :: le_bytes n' (z / 256)
  end.

Definition be_bytes (n : nat) (z : Z) : bytes := rev (le_bytes n z).

Definition readBytes (size : Z) (br : BufferReader)
  : result (bytes * BufferReader) :=
  if (0 <=? size) && (size <=? left br)
  then Ok (firstn (Z.to_nat size) br, skipn (Z.to_nat size) br)
  else Err FrameError.

Definition readU8 (br : BufferReader) : result (Z * BufferReader) :=
  '(bs, br') <- readBytes 1 br ;; Ok (le_value bs, br').

Definition readU16 (br : BufferReader) : result (Z * BufferReader) :=
  '(bs, br') <- readBytes 2 br ;; Ok (le_value bs, br').

Definition readU32 (br : BufferReader) : result (Z * BufferReader) :=
  '(bs, br') <- readBytes 4 br ;; Ok (le_value bs, br').

Definition readU32BE (br : BufferReader) : result (Z * BufferReader) :=
  '(bs, br') <- readBytes 4 br ;; Ok (be_value bs, br').

Definition MAX_SAFE_INTEGER : Z := 2 ^ 53 - 1.

(** [readU64] refuses a value that is not a safe integer. *)
Definition readU64 (br : BufferReader) : result (Z * BufferReader) :=
  '(bs, br') <- readBytes 8 br ;;
  _ <- assert (le_value bs <=? MAX_SAFE_INTEGER) FrameError ;;
  Ok (le_value bs, br').

(** [readVarint]: one prefix byte, then 0, 2, 4 or 8 bytes; an encoding
    longer than needed is refused. *)
Definition readVarint (br : BufferReader) : result (Z * BufferReader) :=
  '(prefix, br1) <- readU8 br ;;
  if prefix =? 0xff then
    '(value, br2) <- readU64 br1 ;;
    _ <- assert (0xffffffff <? value) FrameError ;;
    Ok (value, br2)
  else if prefix =? 0xfe then
    '(value, br2) <- readU32 br1 ;;
    _ <- assert (0xffff <? value) FrameError ;;
    Ok (value, br2)
  else if prefix =? 0xfd then
    '(value, br2) <- readU16 br1 ;;
    _ <- assert (0xfd <=? value) FrameError ;;
    Ok (value, br2)
  else Ok (prefix, br1).

Definition readVarBytes (br : BufferReader) : result (bytes * BufferReader) :=
  '(size, br1) <- readVarint br ;; readBytes size br1.

(** [bufio.readU32(data, off)] on a plain buffer. *)
Definition readU32_at (data : bytes) (off : Z) : result Z :=
  _ <- assert (0 <=? off) FrameError ;;
  '(value, _) <- readU32 (skipn (Z.to_nat off) data) ;; Ok value.

(** A writer is the bytes written so far. *)
Definition BufferWriter := bytes.

Definition writeBytes (value : bytes) (bw : BufferWriter) : BufferWriter :=
  bw ++ value.

Definition writeU8 (value : Z) (bw : BufferWriter) : BufferWriter :=
  bw ++ le_bytes 1 value.

Definition writeU16 (value : Z) (bw : BufferWriter) : BufferWriter :=
  bw ++ le_bytes 2 value.

Definition writeU32 (value : Z) (bw : BufferWriter) : BufferWriter :=
  bw ++ le_bytes 4 value.

Definition writeU32BE (value : Z) (bw : BufferWriter) : BufferWriter :=
  bw ++ be_bytes 4 value.

Definition writeU64 (value : Z) (bw : BufferWriter) : BufferWriter :=
  bw ++ le_bytes 8 value.

Definition writeVarint (num : Z) (bw : BufferWriter) : BufferWriter :=
  if num <? 0xfd then writeU8 num bw
  else if num <=? 0xffff then writeU16 num (writeU8 0xfd bw)
  else if num <=? 0xffffffff then writeU32 num (writeU8 0xfe bw)
  else writeU64 num (writeU8 0xff bw).

Definition writeVarBytes (value : bytes) (bw : BufferWriter) : BufferWriter :=
  writeBytes value (writeVarint (len value) bw).

Definition sizeVarint (num : Z) : Z :=
  if num <? 0xfd then 1
  else if num <=? 0xffff then 3
  else if num <=? 0xffffffff then 5
  else 9.

(** [sizeVarint] on a JavaScript number that need not be an integer: the
    same comparisons, on a rational. *)
Definition sizeVarintQ (num : Q) : Z :=
  if negb (Qle_bool (inject_Z 0xfd) num) then 1
  else if Qle_bool num (inject_Z 0xffff) then 3
  else if Qle_bool num (inject_Z 0xffffffff) then 5
  else 9.

End bufio.

(** ** buffer-map: a map from byte strings, iterated in insertion order *)

Module BufferMap.

Definition t (V : Type) : Type := list (bytes * V).

Definition empty {V} : t V := [].

Fixpoint get {V} (m : t V) (key : bytes) : option V :=
  match m with
  | [] => None
  | (k, v) :: m' => if bytes_eqb k key then Some v else get m' key
  end.

Definition has {V} (m : t V) (key : bytes) : bool :=
  match get m key with
  | Some _ => true
  | None => false
  end.

(** [set] on a key already present replaces the value where the entry
    stands; a new key goes to the end. *)
Fixpoint set {V} (m : t V) (key : bytes) (value : V) : t V :=
  match m with
  | [] => [(key, value)]
  | (k, v) :: m' =>
      if bytes_eqb k key then (k, value) :: m'
      else (k, v) :: set m' key value
  end.

Definition entries {V} (m : t V) : list (bytes * V) := m.
Definition values {V} (m : t V) : list V := map snd m.
Definition size {V} (m : t V) : Z := len m.

End BufferMap.

(** ** psbt/common.js *)

Module common.

Definition MAGIC : Z := 0x70736274.
Definition MAGIC_SEP : Z := 0xff.
Definition SEPARATOR : Z := 0x00.

Module globalTypes.
Definition UNSIGNED_TX : Z := 0x00.
End globalTypes.

Module inputTypes.
Definition NON_WITNESS_UTXO : Z := 0x00.
Definition WITNESS_UTXO : Z := 0x01.
Definition PARTIAL_SIG : Z := 0x02.
Definition SIGHASH : Z := 0x03.
Definition REDEEMSCRIPT : Z := 0x04.
Definition WITNESSSCRIPT : Z := 0x05.
Definition BIP32_DERIVATION : Z := 0x06.
Definition SCRIPTSIG : Z := 0x07.
Definition SCRIPTWITNESS : Z := 0x08.
End inputTypes.

Module outputTypes.
Definition REDEEMSCRIPT : Z := 0x00.
Definition WITNESSSCRIPT : Z := 0x01.
Definition BIP32_DERIVATION : Z := 0x02.
End outputTypes.

End common.

(** ** The objects of lib/primitives and lib/script the PSBT code looks into *)

Module Script.
Record t : Set := mk { raw : bytes }.
End Script.

Module Witness.
Record t : Set := mk { items : list bytes }.
End Witness.

Module Input.
Record t : Set := mk {
  prevout : bytes;
  script : Script.t;
  witness : Witness.t;
  sequence : Z
}.
End Input.

Module Output.
Record t : Set := mk {
  value : Z;
  script : Script.t
}.
End Output.

(** [TX] and its mutable subclass [MTX] carry the same fields. *)
Module TX.
Record t : Set := mk {
  version : Z;
  inputs : list Input.t;
  outputs : list Output.t;
  locktime : Z
}.
End TX.

(** The collaborators: codecs of lib/primitives and lib/script, and the two
    bcrypto functions.  [MTX_toWriter mtx bw] is [mtx.toWriter(bw)]. *)
Class Collaborators : Type := {
  MTX_fromRaw : bytes -> result TX.t;
  MTX_getSize : TX.t -> Z;
  MTX_toWriter : TX.t -> bufio.BufferWriter -> bufio.BufferWriter;
  TX_fromRaw : bytes -> result TX.t;
  TX_getSize : TX.t -> Z;
  TX_toRaw : TX.t -> bytes;
  Output_fromRaw : bytes -> result Output.t;
  Output_getSize : Output.t -> Z;
  Output_toRaw : Output.t -> bytes;
  Script_fromRaw : bytes -> result Script.t;
  Witness_fromRaw : bytes -> result Witness.t;
  publicKeyVerify : bytes -> bool;
  hash160_digest : bytes -> bytes
}.

(** ** hd/common.js: derivation paths as text *)

Module HDCommon.

Definition HARDENED : Z := 0x80000000.

Definition decimal (n : Z) : string :=
  NilZero.string_of_uint (N.to_uint (Z.to_N n)).

(** Modelled from the spec: hd/common.js is not among the sources.  One
    step of a path is a decimal uint32; a hardened step (high bit set) is
    written as the index without the high bit, followed by a quote. *)
Definition formatIndex (index : Z) : string :=
  if HARDENED <=? index
  then (decimal (index - HARDENED) ++ "'")%string
  else decimal index.

(** Modelled from the spec: hd/common.js is not among the sources.  The
    text of an index sequence is [m/i1/i2'/.../in]. *)
Fixpoint formatSteps (indexes : list Z) : string :=
  match indexes with
  | [] => EmptyString
  | index :: rest => ("/" ++ formatIndex index ++ formatSteps rest)%string
  end.

Definition toPath (indexes : list Z) : string :=
  ("m" ++ formatSteps indexes)%string.

(** [path.split('/')]. *)
Fixpoint split (s : string) : list string :=
  match s with
  | EmptyString => [EmptyString]
  | String c s' =>
      if Ascii.eqb c "/" then EmptyString :: split s'
      else match split s' with
           | [] => [String c EmptyString]
           | p :: ps => String c p :: ps
           end
  end.

(** A part without its last character when that is a quote. *)
Fixpoint stripQuote (part : string) : option string :=
  match part with
  | EmptyString => None
  | String c EmptyString => if Ascii.eqb c "'" then Some EmptyString else None
  | String c rest =>
      match stripQuote rest with
      | Some r => Some (String c r)
      | None => None
      end
  end.

(** Modelled from the spec: hd/common.js is not among the sources.  A part
    is a decimal uint32 with an optional trailing quote, which adds the high
    bit; anything else is a [ParseError]. *)
Definition parseIndex (part : string) (hard : bool) : result Z :=
  let '(hardened, digits) :=
    match stripQuote part with
    | Some d => (true, d)
    | None => (false, part)
    end in
  match NilZero.uint_of_string digits with
  | None => Err ParseError
  | Some d =>
      let index := Z.of_N (N.of_uint d) in
      _ <- assert (index <=? 0xffffffff) ParseError ;;
      let index := if hardened then Z.lor index HARDENED else index in
      _ <- assert (hard || (index <? HARDENED)) ParseError ;;
      Ok index
  end.

Fixpoint parseParts (parts : list string) (hard : bool) : result (list Z) :=
  match parts with
  | [] => Ok []
  | part :: parts' =>
      index <- parseIndex part hard ;;
      rest <- parseParts parts' hard ;;
      Ok (index :: rest)
  end.

(** Modelled from the spec: hd/common.js is not among the sources.  The
    text is split at the slashes, the first part is the root [m], every
    other part is an index. *)
Definition parsePath (path : string) (hard : bool) : result (list Z) :=
  match split path with
  | root :: parts =>
      _ <- assert (String.eqb root "m") ParseError ;;
      parseParts parts hard
  | [] => Err ParseError
  end.

End HDCommon.

(** ** psbt/path.js *)

Module Path.

Record t : Set := mk {
  masterFingerPrint : Z;
  indexes : list Z
}.

(** [new Path()]. *)
Definition new : t := mk 0 [].

Definition getSize (self : t) : Z := 4 + len (indexes self) * 4.

Definition write (self : t) (bw : bufio.BufferWriter) : bufio.BufferWriter :=
  fold_left (fun bw index => bufio.writeU32 index bw)
            (indexes self)
            (bufio.writeU32BE (masterFingerPrint self) bw).

(** [while (br.left()) this.indexes.push(br.readU32())]. *)
Fixpoint readIndexes (fuel : nat) (indexes : list Z) (br : bufio.BufferReader)
  : result (list Z * bufio.BufferReader) :=
  match fuel with
  | O => Err FuelExhausted
  | S fuel' =>
      if bufio.left br =? 0 then Ok (indexes, br)
      else
        '(index, br') <- bufio.readU32 br ;;
        readIndexes fuel' (indexes ++ [index]) br'
  end.

Definition read (self : t) (br : bufio.BufferReader)
  : result (t * bufio.BufferReader) :=
  '(fingerPrint, br1) <- bufio.readU32BE br ;;
  '(indexes, br2) <- readIndexes (S (List.length br1)) [] br1 ;;
  Ok (mk fingerPrint indexes, br2).

(** [Path.fromRaw(data)] is [new Path().read(new BufferReader(data))]. *)
Definition fromRaw (data : bytes) : result t :=
  '(path, _) <- read new data ;; Ok path.

(** [toRaw()]: the bytes [write] leaves in a fresh writer. *)
Definition toRaw (self : t) : bytes := write self [].

Definition toPath (self : t) : string := HDCommon.toPath (indexes self).

(** [fingerPrint] defaults to the fingerprint the object holds. *)
Definition fromPath (self : t) (path : string) (fingerPrint : option Z)
  : result t :=
  indexes <- HDCommon.parsePath path true ;;
  Ok (mk (match fingerPrint with
          | Some f => f
          | None => masterFingerPrint self
          end) indexes).

Definition fromString (self : t) (path : string) (fingerPrint : option Z)
  : result t :=
  fromPath self path fingerPrint.

Definition toString (self : t) : string := toPath self.

Definition toIndexes (self : t) : list Z := indexes self.

End Path.

(** JavaScript truthiness of a field that is [null] or an object. *)
Definition truthy {A} (o : option A) : bool :=
  match o with
  | Some _ => true
  | None => false
  end.

(** ** psbt/input.js *)

Module PSBTInput.

Record t : Type := mk {
  tx : option TX.t;                     (* NON_WITNESS_UTXO *)
  output : option Output.t;             (* WITNESS_UTXO *)
  redeem : option Script.t;
  redeemWitness : option Script.t;
  script : option Script.t;             (* final script, legacy *)
  witnessStack : option Witness.t;      (* final script, witness *)
  hashType : Z;
  paths : BufferMap.t Path.t;
  signatures : BufferMap.t (bytes * bytes);
  unknown : BufferMap.t bytes
}.

(** [new PSBTInput()]. *)
Definition new : t :=
  mk None None None None None None 0
     BufferMap.empty BufferMap.empty BufferMap.empty.

Definition set_tx (self : t) (v : TX.t) : t :=
  mk (Some v) (output self) (redeem self) (redeemWitness self) (script self)
     (witnessStack self) (hashType self) (paths self) (signatures self)
     (unknown self).
Definition set_output (self : t) (v : Output.t) : t :=
  mk (tx self) (Some v) (redeem self) (redeemWitness self) (script self)
     (witnessStack self) (hashType self) (paths self) (signatures self)
     (unknown self).
Definition set_redeem (self : t) (v : Script.t) : t :=
  mk (tx self) (output self) (Some v) (redeemWitness self) (script self)
     (witnessStack self) (hashType self) (paths self) (signatures self)
     (unknown self).
Definition set_redeemWitness (self : t) (v : Script.t) : t :=
  mk (tx self) (output self) (redeem self) (Some v) (script self)
     (witnessStack self) (hashType self) (paths self) (signatures self)
     (unknown self).
Definition set_script (self : t) (v : Script.t) : t :=
  mk (tx self) (output self) (redeem self) (redeemWitness self) (Some v)
     (witnessStack self) (hashType self) (paths self) (signatures self)
     (unknown self).
Definition set_witnessStack (self : t) (v : Witness.t) : t :=
  mk (tx self) (output self) (redeem self) (redeemWitness self) (script self)
     (Some v) (hashType self) (paths self) (signatures self) (unknown self).
Definition set_hashType (self : t) (v : Z) : t :=
  mk (tx self) (output self) (redeem self) (redeemWitness self) (script self)
     (witnessStack self) v (paths self) (signatures self) (unknown self).
Definition set_paths (self : t) (v : BufferMap.t Path.t) : t :=
  mk (tx self) (output self) (redeem self) (redeemWitness self) (script self)
     (witnessStack self) (hashType self) v (signatures self) (unknown self).
Definition set_signatures (self : t) (v : BufferMap.t (bytes * bytes)) : t :=
  mk (tx self) (output self) (redeem self) (redeemWitness self) (script self)
     (witnessStack self) (hashType self) (paths self) v (unknown self).
Definition set_unknown (self : t) (v : BufferMap.t bytes) : t :=
  mk (tx self) (output self) (redeem self) (redeemWitness self) (script self)
     (witnessStack self) (hashType self) (paths self) (signatures self) v.

Section WithCollaborators.
Context `{Collaborators}.

Definition getSize (self : t) : Z :=
  let size := 0 in
  let size :=
    match tx self, output self with
    | Some tx, _ =>
        let txSize := TX_getSize tx in
        size + 2 + (bufio.sizeVarint txSize + txSize)
    | None, Some output =>
        let outputSize := Output_getSize output in
        size + 2 + (bufio.sizeVarint outputSize + outputSize)
    | None, None => size
    end in
  if negb (truthy (script self)) && negb (truthy (witnessStack self)) then
    let size :=
      fold_left
        (fun size (sigpair : bytes * bytes) =>
           let keySize := 1 + len (fst sigpair) in
           size + (bufio.sizeVarint keySize + keySize)
                + (bufio.sizeVarint (len (snd sigpair)) + len (snd sigpair)))
        (BufferMap.values (signatures self)) size in
    if 0 <? hashType self then size + 2 + (1 + 4) else size
  else size.

Definition write (self : t) (bw : bufio.BufferWriter) : bufio.BufferWriter :=
  let bw :=
    match tx self, output self with
    | Some tx, _ =>
        bufio.writeVarBytes (TX_toRaw tx)
          (bufio.writeU8 common.inputTypes.NON_WITNESS_UTXO
             (bufio.writeVarint 1 bw))
    | None, Some output =>
        bufio.writeVarBytes (Output_toRaw output)
          (bufio.writeU8 common.inputTypes.WITNESS_UTXO
             (bufio.writeVarint 1 bw))
    | None, None => bw
    end in
  if negb (truthy (script self)) && negb (truthy (witnessStack self)) then
    (* write partial signatures *)
    let bw :=
      fold_left
        (fun bw (sigpair : bytes * bytes) =>
           bufio.writeVarBytes (snd sigpair)
             (bufio.writeBytes (fst sigpair)
                (bufio.writeU8 common.inputTypes.PARTIAL_SIG
                   (bufio.writeVarint (len (fst sigpair) + 1) bw))))
        (BufferMap.values (signatures self)) bw in
    (* write sighash type *)
    let bw :=
      if 0 <? hashType self then
        bufio.writeU32 (hashType self)
          (bufio.writeVarint 4
             (bufio.writeU8 common.inputTypes.SIGHASH
                (bufio.writeVarint 1 bw)))
      else bw in
    (* if (this.redeem) { // ... } *)
    bw
  else bw.

(** The body of the [switch (type)] of [read], for a key that is not
    empty. *)
Definition readField (self : t) (key : bytes) (br : bufio.BufferReader)
  : result (t * bufio.BufferReader) :=
  let type := u8 (nth 0 key x00) in
  if type =? common.inputTypes.NON_WITNESS_UTXO then
    _ <- assert (negb (truthy (tx self))) DuplicateField ;;
    '(rawTX, br) <- bufio.readVarBytes br ;;
    tx <- TX_fromRaw rawTX ;;
    Ok (set_tx self tx, br)
  else if type =? common.inputTypes.WITNESS_UTXO then
    _ <- assert (negb (truthy (output self))) DuplicateField ;;
    '(rawOutput, br) <- bufio.readVarBytes br ;;
    output <- Output_fromRaw rawOutput ;;
    Ok (set_output self output, br)
  else if type =? common.inputTypes.PARTIAL_SIG then
    _ <- assert ((len key =? 33 + 1) || (len key =? 65 + 1))
           InvalidKeyMaterial ;;
    let pubkey := skipn 1 key in
    _ <- assert (publicKeyVerify pubkey) InvalidKeyMaterial ;;
    let hash := hash160_digest pubkey in
    '(signature, br) <- bufio.readVarBytes br ;;
    Ok (set_signatures self
          (BufferMap.set (signatures self) hash (pubkey, signature)), br)
  else if type =? common.inputTypes.SIGHASH then
    _ <- assert (hashType self =? 0) DuplicateField ;;
    '(hashType, br) <- bufio.readVarBytes br ;;
    value <- bufio.readU32_at hashType 0 ;;
    Ok (set_hashType self value, br)
  else if type =? common.inputTypes.REDEEMSCRIPT then
    _ <- assert (negb (truthy (redeem self))) DuplicateField ;;
    '(rawScript, br) <- bufio.readVarBytes br ;;
    script <- Script_fromRaw rawScript ;;
    Ok (set_redeem self script, br)
  else if type =? common.inputTypes.WITNESSSCRIPT then
    _ <- assert (negb (truthy (redeemWitness self))) DuplicateField ;;
    '(rawScript, br) <- bufio.readVarBytes br ;;
    script <- Script_fromRaw rawScript ;;
    Ok (set_redeemWitness self script, br)
  else if type =? common.inputTypes.BIP32_DERIVATION then
    let pubkey := skipn 1 key in
    _ <- assert (publicKeyVerify pubkey) InvalidKeyMaterial ;;
    let hash := hash160_digest pubkey in
    '(rawPath, br) <- bufio.readVarBytes br ;;
    path <- Path.fromRaw rawPath ;;
    Ok (set_paths self (BufferMap.set (paths self) hash path), br)
  else if type =? common.inputTypes.SCRIPTSIG then
    _ <- assert (negb (truthy (script self))) DuplicateField ;;
    '(rawScript, br) <- bufio.readVarBytes br ;;
    script <- Script_fromRaw rawScript ;;
    Ok (set_script self script, br)
  else if type =? common.inputTypes.SCRIPTWITNESS then
    _ <- assert (negb (truthy (witnessStack self))) DuplicateField ;;
    '(rawStack, br) <- bufio.readVarBytes br ;;
    stack <- Witness_fromRaw rawStack ;;
    Ok (set_witnessStack self stack, br)
  else
    (* Unknown stuff *)
    _ <- assert (negb (BufferMap.has (unknown self) key)) DuplicateField ;;
    '(value, br) <- bufio.readVarBytes br ;;
    Ok (set_unknown self (BufferMap.set (unknown self) key value), br).

(** [while (br.left()) { ... }]: every turn consumes at least the byte
    of the key length, so [fuel] above the number of unread bytes is
    never used up. *)
Fixpoint readLoop (fuel : nat) (self : t) (br : bufio.BufferReader)
  : result (t * bufio.BufferReader) :=
  match fuel with
  | O => Err FuelExhausted
  | S fuel' =>
      if bufio.left br =? 0 then Ok (self, br)
      else
        '(key, br1) <- bufio.readVarBytes br ;;
        (* separator byte. *)
        if len key =? 0 then Ok (self, br1)
        else
          '(self', br2) <- readField self key br1 ;;
          readLoop fuel' self' br2
  end.

Definition read (self : t) (br : bufio.BufferReader)
  : result (t * bufio.BufferReader) :=
  readLoop (S (List.length br)) self br.

(** [PSBTInput.fromReader(br)] is [new PSBTInput().read(br)]. *)
Definition fromReader (br : bufio.BufferReader)
  : result (t * bufio.BufferReader) :=
  read new br.

End WithCollaborators.

Definition isNull (self : t) : bool := false.

(** [merge(input) { return this; }]. *)
Definition merge (self input : t) : t := self.

Definition isSane (self : t) : bool :=
  (* Cannot have both witness and non-witness utxos *)
  if truthy (tx self) && truthy (output self) then false
  (* If we have a witness_script or script witness
     we must also have a witness utxo *)
  else if truthy (redeemWitness self) && negb (truthy (output self)) then false
  else if truthy (witnessStack self) && negb (truthy (output self)) then false
  else true.

End PSBTInput.

(** ** psbt/output.js *)

Module PSBTOutput.

(** The class declares no field. *)
Inductive t : Set := mk.

Definition new : t := mk.

Definition getSize (self : t) : Z := 0.

Definition write (self : t) (bw : bufio.BufferWriter) : bufio.BufferWriter :=
  bw.

(** [read] prints a line and returns; the reader is left where it was. *)
Definition read (self : t) (br : bufio.BufferReader)
  : result (t * bufio.BufferReader) :=
  Ok (self, br).

End PSBTOutput.

(** ** psbt/psbt.js *)

Module PSBT.

Record t : Type := mk {
  inputs : list PSBTInput.t;
  outputs : list PSBTOutput.t;
  unknown : BufferMap.t bytes;
  mtx : option TX.t
}.

(** [new PSBT()]. *)
Definition new : t := mk [] [] BufferMap.empty None.

Definition set_mtx (self : t) (v : TX.t) : t :=
  mk (inputs self) (outputs self) (unknown self) (Some v).
Definition set_unknown (self : t) (v : BufferMap.t bytes) : t :=
  mk (inputs self) (outputs self) v (mtx self).
Definition set_inputs (self : t) (v : list PSBTInput.t) : t :=
  mk v (outputs self) (unknown self) (mtx self).

(** [for (const input of mtx.inputs)] of [isTransactionUnsigned]. *)
Fixpoint allInputsUnsigned (inputs : list Input.t) : bool :=
  match inputs with
  | [] => true
  | input :: rest =>
      if negb (len (Script.raw (Input.script input)) =? 0)
         || negb (len (Witness.items (Input.witness input)) =? 0)
      then false
      else allInputsUnsigned rest
  end.

Definition isTransactionUnsigned (mtx : TX.t) : bool :=
  allInputsUnsigned (TX.inputs mtx).

Section WithCollaborators.
Context `{Collaborators}.

(** [getSize] is a JavaScript number: [key.length / 2] need not be an
    integer, so the sum is a rational.  The keys that [entries()] of a
    BufferMap yields are the key buffers, so [key.length] is the number
    of bytes of the key.  [this.mtx.getSize()] on a PSBT without
    transaction is a call on [null]. *)
Definition getSize (self : t) : result Q :=
  match mtx self with
  | None => Err TypeError
  | Some mtx =>
      let size := inject_Z 5 in (* prefix *)
      let mtxSize := MTX_getSize mtx in
      (* unsigned TX *)
      let size := (size + inject_Z 2)%Q in
      let size := (size + inject_Z (bufio.sizeVarint mtxSize))%Q in
      let size := (size + inject_Z mtxSize)%Q in
      (* calculate unknown types *)
      let size :=
        fold_left
          (fun size (entry : bytes * bytes) =>
             let '(key, value) := entry in
             let half := (inject_Z (len key) / inject_Z 2)%Q in
             (size + inject_Z (bufio.sizeVarintQ half) + half
              + inject_Z (bufio.sizeVarint (len value))
              + inject_Z (len value))%Q)
          (BufferMap.entries (unknown self)) size in
      let size := (size + inject_Z 1)%Q in (* psbt separator *)
      (* inputs *)
      let size :=
        fold_left
          (fun size input =>
             (size + inject_Z (PSBTInput.getSize input) + inject_Z 1)%Q)
          (inputs self) size in
      Ok size
  end.

(** [write] returns how the call ended together with the writer as the
    call left it: what was written before a failed assertion stays
    written.  [writeVarBytes] of bufio takes the buffer alone; the
    ['hex'] passed with an unknown key has no effect. *)
Definition write (self : t) (bw : bufio.BufferWriter)
  : result unit * bufio.BufferWriter :=
  let bw := bufio.writeU32BE common.MAGIC bw in
  let bw := bufio.writeU8 common.MAGIC_SEP bw in
  match mtx self with
  | None => (Err MissingTransaction, bw)
  | Some mtx =>
      let mtxSize := MTX_getSize mtx in
      let bw := bufio.writeVarint 1 bw in
      let bw := bufio.writeU8 common.globalTypes.UNSIGNED_TX bw in
      let bw := bufio.writeVarint mtxSize bw in
      let bw := MTX_toWriter mtx bw in
      let bw :=
        fold_left
          (fun bw (entry : bytes * bytes) =>
             let '(key, value) := entry in
             bufio.writeVarBytes value (bufio.writeVarBytes key bw))
          (BufferMap.entries (unknown self)) bw in
      let bw := bufio.writeU8 common.SEPARATOR bw in
      (* end of global scope. *)
      (* input scope *)
      let bw :=
        fold_left
          (fun bw input =>
             bufio.writeU8 common.SEPARATOR (PSBTInput.write input bw))
          (inputs self) bw in
      (Ok tt, bw)
  end.

(** The encoding of a PSBT: what [write] leaves in a fresh writer when
    it succeeds. *)
Definition written (self : t) : result bytes :=
  match write self [] with
  | (Ok _, bw) => Ok bw
  | (Err e, _) => Err e
  end.

(** The body of the [switch (type)] of the global scope, for a key that
    is not empty. *)
Definition readField (self : t) (key : bytes) (br : bufio.BufferReader)
  : result (t * bufio.BufferReader) :=
  let type := u8 (nth 0 key x00) in
  if type =? common.globalTypes.UNSIGNED_TX then
    _ <- assert (negb (truthy (mtx self))) DuplicateField ;;
    '(rawTX, br) <- bufio.readVarBytes br ;;
    mtx <- MTX_fromRaw rawTX ;;
    _ <- assert (isTransactionUnsigned mtx) InvalidFieldCombination ;;
    Ok (set_mtx self mtx, br)
  else
    (* Unknown stuff *)
    _ <- assert (negb (BufferMap.has (unknown self) key)) DuplicateField ;;
    '(value, br) <- bufio.readVarBytes br ;;
    Ok (set_unknown self (BufferMap.set (unknown self) key value), br).

Fixpoint readGlobal (fuel : nat) (self : t) (br : bufio.BufferReader)
  : result (t * bufio.BufferReader) :=
  match fuel with
  | O => Err FuelExhausted
  | S fuel' =>
      if bufio.left br =? 0 then Ok (self, br)
      else
        '(key, br1) <- bufio.readVarBytes br ;;
        if len key =? 0 then Ok (self, br1)
        else
          '(self', br2) <- readField self key br1 ;;
          readGlobal fuel' self' br2
  end.

(** [for (let i = 0; i < this.mtx.inputs.length; i++)], with [count] the
    turns still to run. *)
Fixpoint readInputs (count : nat) (inputs : list PSBTInput.t)
         (br : bufio.BufferReader)
  : result (list PSBTInput.t * bufio.BufferReader) :=
  match count with
  | O => Ok (inputs, br)
  | S count' =>
      '(input, br') <- PSBTInput.fromReader br ;;
      readInputs count' (inputs ++ [input]) br'
  end.

Definition read (self : t) (br : bufio.BufferReader)
  : result (t * bufio.BufferReader) :=
  '(magic, br) <- bufio.readU32BE br ;;
  '(magicSep, br) <- bufio.readU8 br ;;
  _ <- assert ((magic =? common.MAGIC) && (magicSep =? common.MAGIC_SEP))
         MalformedEnvelope ;;
  '(self, br) <- readGlobal (S (List.length br)) self br ;;
  match mtx self with
  | None => Err MissingRequiredField
  | Some mtx =>
      (* end of global scope. *)
      '(inputs, br) <-
        readInputs (List.length (TX.inputs mtx)) (inputs self) br ;;
      Ok (set_inputs self inputs, br)
  end.

(** [PSBT.fromRaw(data)] is [new PSBT().read(new BufferReader(data))]. *)
Definition fromRaw (data : bytes) : result t :=
  '(psbt, _) <- read new data ;; Ok psbt.

End WithCollaborators.

Definition isNull (self : t) : bool :=
  negb (truthy (mtx self))
  && (len (inputs self) =? 0)
  && (len (outputs self) =? 0)
  && (BufferMap.size (unknown self) =? 0).

Fixpoint allInputsSane (inputs : list PSBTInput.t) : bool :=
  match inputs with
  | [] => true
  | input :: rest =>
      if negb (PSBTInput.isSane input) then false else allInputsSane rest
  end.

Definition isSane (self : t) : bool := allInputsSane (inputs self).

(** First loop of [merge]: [assert(psbt.inputs[i]); input.merge(...)]. *)
Fixpoint mergeInputs (i : nat) (mine theirs : list PSBTInput.t)
  : result (list PSBTInput.t) :=
  match mine with
  | [] => Ok []
  | input :: rest =>
      match nth_error theirs i with
      | None => Err AssertionFailed
      | Some other =>
          let input := PSBTInput.merge input other in
          rest' <- mergeInputs (S i) rest theirs ;;
          Ok (input :: rest')
      end
  end.

(** Second loop of [merge]: [assert(psbt.outputs[i]); output.merge(...)],
    where the output class has no method [merge]: the call is a
    [TypeError]. *)
Definition mergeOutputs (i : nat) (mine theirs : list PSBTOutput.t)
  : result (list PSBTOutput.t) :=
  match mine with
  | [] => Ok []
  | output :: rest =>
      match nth_error theirs i with
      | None => Err AssertionFailed
      | Some other => Err TypeError
      end
  end.

(** [merge] works on [this] in place; the result is [this] after the
    call. *)
Definition merge (self psbt : t) : result t :=
  inputs' <- mergeInputs 0 (inputs self) (inputs psbt) ;;
  outputs' <- mergeOutputs 0 (outputs self) (outputs psbt) ;;
  Ok (mk inputs' outputs' (unknown self) (mtx self)).

End PSBT.

(** ** A reference implementation of the collaborators

    It gives the general statements below something to run on: the Bitcoin
    wire format of transactions, outputs and witnesses, scripts kept as their
    raw bytes, and the secp256k1 curve equation for the key check. *)

Module Reference.

Definition hexDigit (c : ascii) : Z :=
  let n := Z.of_nat (nat_of_ascii c) in
  if (48 <=? n) && (n <=? 57) then n - 48
  else if (97 <=? n) && (n <=? 102) then n - 87
  else if (65 <=? n) && (n <=? 70) then n - 55
  else 0.

(** [Buffer.from(s, 'hex')]. *)
Fixpoint hex (s : string) : bytes :=
  match s with
  | String hi (String lo s') =>
      byte_of_Z (16 * hexDigit hi + hexDigit lo) :: hex s'
  | _ => []
  end.

(** [count] items, one after the other. *)
Fixpoint readList {A} (count : nat)
         (item : bufio.BufferReader -> result (A * bufio.BufferReader))
         (br : bufio.BufferReader) : result (list A * bufio.BufferReader) :=
  match count with
  | O => Ok ([], br)
  | S count' =>
      '(a, br1) <- item br ;;
      '(rest, br2) <- readList count' item br1 ;;
      Ok (a :: rest, br2)
  end.

(** A count read from the wire; no item is shorter than one byte. *)
Definition readCount (br : bufio.BufferReader)
  : result (nat * bufio.BufferReader) :=
  '(count, br1) <- bufio.readVarint br ;;
  _ <- assert (count <=? bufio.left br1) FrameError ;;
  Ok (Z.to_nat count, br1).

Definition readInput (br : bufio.BufferReader)
  : result (Input.t * bufio.BufferReader) :=
  '(prevout, br) <- bufio.readBytes 36 br ;;
  '(script, br) <- bufio.readVarBytes br ;;
  '(sequence, br) <- bufio.readU32 br ;;
  Ok (Input.mk prevout (Script.mk script) (Witness.mk []) sequence, br).

Definition readOutput (br : bufio.BufferReader)
  : result (Output.t * bufio.BufferReader) :=
  '(value, br) <- bufio.readU64 br ;;
  '(script, br) <- bufio.readVarBytes br ;;
  Ok (Output.mk value (Script.mk script), br).

Definition readWitness (br : bufio.BufferReader)
  : result (Witness.t * bufio.BufferReader) :=
  '(count, br) <- readCount br ;;
  '(items, br) <- readList count bufio.readVarBytes br ;;
  Ok (Witness.mk items, br).

Fixpoint setWitnesses (inputs : list Input.t) (ws : list Witness.t)
  : list Input.t :=
  match inputs, ws with
  | input :: inputs', w :: ws' =>
      Input.mk (Input.prevout input) (Input.script input) w
               (Input.sequence input) :: setWitnesses inputs' ws'
  | _, _ => inputs
  end.

(** A zero byte where the input count stands, followed by a byte that is
    not zero, announces the witness format. *)
Definition hasWitnessBytes (br : bufio.BufferReader) : bool :=
  (6 <=? bufio.left br)
  && (u8 (nth 4 br x00) =? 0)
  && negb (u8 (nth 5 br x00) =? 0).

Definition readTX (br : bufio.BufferReader)
  : result (TX.t * bufio.BufferReader) :=
  if hasWitnessBytes br then
    '(version, br) <- bufio.readU32 br ;;
    '(_, br) <- bufio.readU8 br ;;
    '(flags, br) <- bufio.readU8 br ;;
    '(inCount, br) <- readCount br ;;
    '(inputs, br) <- readList inCount readInput br ;;
    '(outCount, br) <- readCount br ;;
    '(outputs, br) <- readList outCount readOutput br ;;
    _ <- assert (flags =? 1) FrameError ;;
    '(ws, br) <- readList inCount readWitness br ;;
    '(locktime, br) <- bufio.readU32 br ;;
    Ok (TX.mk version (setWitnesses inputs ws) outputs locktime, br)
  else
    '(version, br) <- bufio.readU32 br ;;
    '(inCount, br) <- readCount br ;;
    '(inputs, br) <- readList inCount readInput br ;;
    '(outCount, br) <- readCount br ;;
    '(outputs, br) <- readList outCount readOutput br ;;
    '(locktime, br) <- bufio.readU32 br ;;
    Ok (TX.mk version inputs outputs locktime, br).

Definition writeInput (input : Input.t) (bw : bufio.BufferWriter)
  : bufio.BufferWriter :=
  bufio.writeU32 (Input.sequence input)
    (bufio.writeVarBytes (Script.raw (Input.script input))
       (bufio.writeBytes (Input.prevout input) bw)).

Definition writeOutput (output : Output.t) (bw : bufio.BufferWriter)
  : bufio.BufferWriter :=
  bufio.writeVarBytes (Script.raw (Output.script output))
    (bufio.writeU64 (Output.value output) bw).

Definition writeWitness (w : Witness.t) (bw : bufio.BufferWriter)
  : bufio.BufferWriter :=
  fold_left (fun bw item => bufio.writeVarBytes item bw) (Witness.items w)
            (bufio.writeVarint (len (Witness.items w)) bw).

Definition hasWitness (tx : TX.t) : bool :=
  existsb (fun input => negb (len (Witness.items (Input.witness input)) =? 0))
          (TX.inputs tx).

Definition writeTX (tx : TX.t) (bw : bufio.BufferWriter)
  : bufio.BufferWriter :=
  let bw := bufio.writeU32 (TX.version tx) bw in
  let bw := if hasWitness tx then bufio.writeU8 1 (bufio.writeU8 0 bw)
            else bw in
  let bw := bufio.writeVarint (len (TX.inputs tx)) bw in
  let bw := fold_left (fun bw i => writeInput i bw) (TX.inputs tx) bw in
  let bw := bufio.writeVarint (len (TX.outputs tx)) bw in
  let bw := fold_left (fun bw o => writeOutput o bw) (TX.outputs tx) bw in
  let bw := if hasWitness tx
            then fold_left (fun bw i => writeWitness (Input.witness i) bw)
                           (TX.inputs tx) bw
            else bw in
  bufio.writeU32 (TX.locktime tx) bw.

Definition secp256k1_p : Z := 2 ^ 256 - 2 ^ 32 - 977.

Fixpoint powmod (b : Z) (e : positive) (m : Z) : Z :=
  match e with
  | xH => b mod m
  | xO e' => let r := powmod b e' m in (r * r) mod m
  | xI e' => let r := powmod b e' m in (((r * r) mod m) * b) mod m
  end.

(** The right-hand side of the curve equation, [x^3 + 7]. *)
Definition curveRhs (x : Z) : Z := (x * x * x + 7) mod secp256k1_p.

Definition isSquare (v : Z) : bool :=
  (v =? 0) || (powmod v (Z.to_pos ((secp256k1_p - 1) / 2)) secp256k1_p =? 1).

(** A compressed key is a prefix 02 or 03 and an [x] with a point on the
    curve; an uncompressed key is a prefix 04 and a point [(x, y)] of the
    curve. *)
Definition secp256k1_publicKeyVerify (key : bytes) : bool :=
  match key with
  | [] => false
  | prefix :: rest =>
      let x := bufio.be_value (firstn 32 rest) in
      let y := bufio.be_value (skipn 32 rest) in
      if (len rest =? 32) && ((u8 prefix =? 2) || (u8 prefix =? 3)) then
        (x <? secp256k1_p) && isSquare (curveRhs x)
      else if (len rest =? 64) && (u8 prefix =? 4) then
        (x <? secp256k1_p) && (y <? secp256k1_p)
        && ((y * y) mod secp256k1_p =? curveRhs x)
      else false
  end.

(** Stands for RIPEMD160 of SHA256: twenty bytes that depend on the key
    alone.  No statement below looks inside the digest. *)
Definition digest20 (data : bytes) : bytes :=
  firstn 20 (skipn 1 data ++ repeat x00 20).

Definition collaborators : Collaborators := {|
  MTX_fromRaw := fun raw => '(tx, _) <- readTX raw ;; Ok tx;
  MTX_getSize := fun tx => len (writeTX tx []);
  MTX_toWriter := writeTX;
  TX_fromRaw := fun raw => '(tx, _) <- readTX raw ;; Ok tx;
  TX_getSize := fun tx => len (writeTX tx []);
  TX_toRaw := fun tx => writeTX tx [];
  Output_fromRaw := fun raw => '(o, _) <- readOutput raw ;; Ok o;
  Output_getSize := fun o => len (writeOutput o []);
  Output_toRaw := fun o => writeOutput o [];
  Script_fromRaw := fun raw => Ok (Script.mk raw);
  Witness_fromRaw := fun raw => '(w, _) <- readWitness raw ;; Ok w;
  publicKeyVerify := secp256k1_publicKeyVerify;
  hash160_digest := digest20
|}.

End Reference.

(** ** Vocabulary of the statements *)

Definition uint32 (z : Z) : Prop := 0 <= z < 2 ^ 32.

(** No character of [s] is [a]. *)
Fixpoint noChar (a : ascii) (s : string) : bool :=
  match s with
  | EmptyString => true
  | String c s' => negb (Ascii.eqb c a) && noChar a s'
  end.

(** One key-value record on the wire. *)
Definition record (key value : bytes) : bytes :=
  bufio.writeVarBytes value (bufio.writeVarBytes key []).

(** The five bytes in front of the global scope. *)
Definition envelope : bytes :=
  bufio.writeU8 common.MAGIC_SEP (bufio.writeU32BE common.MAGIC []).

(** An input of the embedded transaction that carries a script or a
    witness. *)
Definition signedInput (input : Input.t) : Prop :=
  Script.raw (Input.script input) <> []
  \/ Witness.items (Input.witness input) <> [].



Definition valueSize (value : bytes) : Z :=
  bufio.sizeVarint (len value) + len value.




(** A writer that only appends. *)
Definition appends (w : bufio.BufferWriter -> bufio.BufferWriter) : Prop :=
  forall bw, w bw = bw ++ w [].

(** ** Concrete data *)

Module Examples.

(** A version 2 transaction with one input (empty script, no witness) and
    one output of 1000 satoshi locked by the one-byte script 51. *)
Definition rawTX : bytes :=
  Reference.hex
    ("0200000001"
     ++ "aaaaaaaaaaaaaaaaaaaaaaaaaaaaaaaaaaaaaaaaaaaaaaaaaaaaaaaaaaaaaaaa"
     ++ "00000000" ++ "00" ++ "ffffffff"
     ++ "01" ++ "e803000000000000" ++ "0151"
     ++ "00000000")%string.

Definition tx : TX.t :=
  TX.mk 2
    [Input.mk
       (Reference.hex
          ("aaaaaaaaaaaaaaaaaaaaaaaaaaaaaaaaaaaaaaaaaaaaaaaaaaaaaaaaaaaaaaaa"
           ++ "00000000")%string)
       (Script.mk []) (Witness.mk []) 0xffffffff]
    [Output.mk 1000 (Script.mk [x51])]
    0.

(** The same transaction with the one-byte script 51 on its input. *)
Definition rawTXsigned : bytes :=
  Reference.hex
    ("0200000001"
     ++ "aaaaaaaaaaaaaaaaaaaaaaaaaaaaaaaaaaaaaaaaaaaaaaaaaaaaaaaaaaaaaaaa"
     ++ "00000000" ++ "0151" ++ "ffffffff"
     ++ "01" ++ "e803000000000000" ++ "0151"
     ++ "00000000")%string.

Definition txSigned : TX.t :=
  TX.mk 2
    [Input.mk
       (Reference.hex
          ("aaaaaaaaaaaaaaaaaaaaaaaaaaaaaaaaaaaaaaaaaaaaaaaaaaaaaaaaaaaaaaaa"
           ++ "00000000")%string)
       (Script.mk [x51]) (Witness.mk []) 0xffffffff]
    [Output.mk 1000 (Script.mk [x51])]
    0.

(** The PSBT of [rawTX] as BIP-174 lays it out: prefix, global scope with
    the transaction, one empty input scope, one empty output scope. *)
Definition psbt : bytes :=
  envelope ++ record [x00] rawTX ++ [x00] ++ [x00] ++ [x00].

(** The same without the output scope. *)
Definition psbtShort : bytes :=
  envelope ++ record [x00] rawTX ++ [x00] ++ [x00].

(** What [psbt] decodes to. *)
Definition decoded : PSBT.t :=
  PSBT.mk [PSBTInput.new] [] BufferMap.empty (Some tx).

(** [psbtShort] with one more record in the global scope: key fc 01,
    empty value. *)
Definition psbtUnknown : bytes :=
  envelope ++ record [x00] rawTX ++ record [xfc; x01] [] ++ [x00] ++ [x00].

Definition decodedUnknown : PSBT.t :=
  PSBT.mk [PSBTInput.new] [] [([xfc; x01], [])] (Some tx).

(** [psbt] with a redeem script (the one-byte script 51) in its input
    scope. *)
Definition psbtRedeem : bytes :=
  envelope ++ record [x00] rawTX ++ [x00]
  ++ record [x04] [x51] ++ [x00] ++ [x00].

Definition decodedRedeem : PSBT.t :=
  PSBT.mk [PSBTInput.set_redeem PSBTInput.new (Script.mk [x51])] []
          BufferMap.empty (Some tx).

(** The generator of secp256k1 and its double, compressed. *)
Definition K1 : bytes :=
  Reference.hex
    "0279be667ef9dcbbac55a06295ce870b07029bfcdb2dce28d959f2815b16f81798".
Definition K2 : bytes :=
  Reference.hex
    "02c6047f9441ed7d6d3045406e95c07cd85c778e4b8cef3ca7abac09b95c709ee5".

Definition sig1 : bytes := Reference.hex "3006020101020101".
Definition sig2 : bytes := Reference.hex "3006020102020102".

(** Two PSBTs of [tx]; the first input of [A] holds a signature of [K1],
    the first input of [B] one of [K2]. *)
Definition A : PSBT.t :=
  PSBT.mk
    [PSBTInput.set_signatures PSBTInput.new
       [(Reference.digest20 K1, (K1, sig1))]]
    [] BufferMap.empty (Some tx).
Definition B : PSBT.t :=
  PSBT.mk
    [PSBTInput.set_signatures PSBTInput.new
       [(Reference.digest20 K2, (K2, sig2))]]
    [] BufferMap.empty (Some tx).

(** The path m/44'/0'/0'/1/7 under the fingerprint d90c6a4f. *)
Definition fingerPrint : Z := 0xd90c6a4f.
Definition indexes : list Z := [0x8000002c; 0x80000000; 0x80000000; 1; 7].

End Examples.

(** ** Vocabulary of the statements on scopes *)

(** The field type of a key: its first byte, [key[0]]. *)
Definition keyType (key : bytes) : Z := u8 (nth 0 key x00).

(** An entry of an unknown map whose key has a field type above [limit]:
    above 8 in an input scope, above 0 in the global scope. *)
Definition unknownEntry (limit : Z) (entry : bytes * bytes) : Prop :=
  limit < keyType (fst entry).

(** Key and value short enough for a length prefix. *)
Definition framedEntry (entry : bytes * bytes) : Prop :=
  len (fst entry) <= bufio.MAX_SAFE_INTEGER
  /\ len (snd entry) <= bufio.MAX_SAFE_INTEGER.

(** The records of a list of entries, one after the other. *)
Definition records (entries : list (bytes * bytes)) : bytes :=
  List.concat (map (fun entry => record (fst entry) (snd entry)) entries).

(** The records [PSBTInput.write] emits for the signatures. *)
Definition signatureRecords (sigs : BufferMap.t (bytes * bytes)) : bytes :=
  records (map (fun entry => (x02 :: fst (snd entry), snd (snd entry))) sigs).

(** The record [PSBTInput.write] emits for the sighash type. *)
Definition sighashRecord (hashType : Z) : bytes :=
  if 0 <? hashType then record [x03] (bufio.le_bytes 4 hashType) else [].

Section ScopeVocabulary.
Context `{Collaborators}.

(** A signature entry as the decoder files it: under the digest of its
    public key, which passed the key check and has 33 or 65 bytes. *)
Definition signatureEntry (entry : bytes * (bytes * bytes)) : Prop :=
  fst entry = hash160_digest (fst (snd entry))
  /\ publicKeyVerify (fst (snd entry)) = true
  /\ (len (fst (snd entry)) = 33 \/ len (fst (snd entry)) = 65).

(** A derivation entry as the decoder files it: under the digest of a
    public key that passed the key check, with uint32 numbers. *)
Definition pathEntry (entry : bytes * Path.t) : Prop :=
  (exists pubkey, fst entry = hash160_digest pubkey
                  /\ publicKeyVerify pubkey = true)
  /\ uint32 (Path.masterFingerPrint (snd entry))
  /\ Forall uint32 (Path.indexes (snd entry)).

(** What holds of every input record that comes out of the decoder. *)
Definition decodedInput (input : PSBTInput.t) : Prop :=
  Forall signatureEntry (PSBTInput.signatures input)
  /\ NoDup (map fst (PSBTInput.signatures input))
  /\ Forall pathEntry (PSBTInput.paths input)
  /\ NoDup (map fst (PSBTInput.paths input))
  /\ Forall (unknownEntry 8) (PSBTInput.unknown input)
  /\ NoDup (map fst (PSBTInput.unknown input))
  /\ uint32 (PSBTInput.hashType input).

(** The record [PSBTInput.write] emits for the UTXO. *)
Definition utxoRecord (input : PSBTInput.t) : bytes :=
  match PSBTInput.tx input, PSBTInput.output input with
  | Some tx, _ => record [x00] (TX_toRaw tx)
  | None, Some output => record [x01] (Output_toRaw output)
  | None, None => []
  end.

(** An input record that holds nothing [PSBTInput.write] leaves out, and
    whose UTXO the collaborator codec reads back. *)
Definition encodableInput (input : PSBTInput.t) : Prop :=
  PSBTInput.redeem input = None
  /\ PSBTInput.redeemWitness input = None
  /\ PSBTInput.script input = None
  /\ PSBTInput.witnessStack input = None
  /\ PSBTInput.paths input = []
  /\ PSBTInput.unknown input = []
  /\ uint32 (PSBTInput.hashType input)
  /\ Forall signatureEntry (PSBTInput.signatures input)
  /\ NoDup (map fst (PSBTInput.signatures input))
  /\ Forall (fun entry : bytes * (bytes * bytes) =>
               len (snd (snd entry)) <= bufio.MAX_SAFE_INTEGER)
            (PSBTInput.signatures input)
  /\ match PSBTInput.tx input, PSBTInput.output input with
     | Some tx, None =>
         TX_fromRaw (TX_toRaw tx) = Ok tx
         /\ len (TX_toRaw tx) <= bufio.MAX_SAFE_INTEGER
     | None, Some output =>
         Output_fromRaw (Output_toRaw output) = Ok output
         /\ len (Output_toRaw output) <= bufio.MAX_SAFE_INTEGER
     | None, None => True
     | Some _, Some _ => False
     end.

(** The input scopes [PSBT.write] emits: every input record as written,
    each followed by the separator. *)
Definition inputScopes (inputs : list PSBTInput.t) : bytes :=
  List.concat (map (fun input => PSBTInput.write input [] ++ [x00]) inputs).

(** A PSBT that holds nothing [PSBT.write] leaves out, shaped like its
    transaction, over a transaction codec that reads back what it writes. *)
Definition encodablePSBT (psbt : PSBT.t) : Prop :=
  PSBT.outputs psbt = []
  /\ Forall (unknownEntry 0) (PSBT.unknown psbt)
  /\ NoDup (map fst (PSBT.unknown psbt))
  /\ Forall framedEntry (PSBT.unknown psbt)
  /\ Forall encodableInput (PSBT.inputs psbt)
  /\ exists tx raw,
       PSBT.mtx psbt = Some tx
       /\ List.length (PSBT.inputs psbt) = List.length (TX.inputs tx)
       /\ PSBT.isTransactionUnsigned tx = true
       /\ (forall bw, MTX_toWriter tx bw = bw ++ raw)
       /\ len raw = MTX_getSize tx
       /\ len raw <= bufio.MAX_SAFE_INTEGER
       /\ MTX_fromRaw raw = Ok tx.

End ScopeVocabulary.

(** * Properties *)

(** ** Bytes and numbers *)

Lemma u8_range (b : byte) : 0 <= u8 b < 256.
Proof.
  unfold u8. pose proof (Byte.to_N_bounded b). lia.
Qed.

Lemma u8_byte_of_Z (z : Z) : u8 (byte_of_Z z) = z mod 256.
Proof.
  unfold u8, byte_of_Z.
  pose proof (Z.mod_pos_bound z 256 ltac:(lia)) as Hm.
  destruct (Byte.of_N (Z.to_N (z mod 256))) as [b|] eqn:E.
  - apply Byte.to_of_N in E. rewrite E. lia.
  - apply Byte.of_N_None_iff in E. lia.
Qed.

Lemma byte_of_Z_u8 (b : byte) : byte_of_Z (u8 b) = b.
Proof.
  unfold byte_of_Z. pose proof (u8_range b) as Hr.
  rewrite Z.mod_small by lia. unfold u8. rewrite N2Z.id.
  now rewrite Byte.of_to_N.
Qed.

Lemma bytes_eqb_eq (a b : bytes) : bytes_eqb a b = true <-> a = b.
Proof.
  revert b. induction a as [|x a IH]; intros [|y b]; simpl; split; intros E;
    try reflexivity; try discriminate.
  - apply andb_true_iff in E as [E1 E2].
    apply Byte.byte_dec_bl in E1. apply IH in E2. now subst.
  - injection E as -> ->. apply andb_true_iff. split.
    + now apply Byte.byte_dec_lb.
    + now apply IH.
Qed.

Lemma bytes_eqb_refl (a : bytes) : bytes_eqb a a = true.
Proof. now apply bytes_eqb_eq. Qed.

Lemma len_app {A} (a b : list A) : len (a ++ b) = len a + len b.
Proof. unfold len. rewrite length_app. lia. Qed.

Lemma len_nonneg {A} (a : list A) : 0 <= len a.
Proof. unfold len. lia. Qed.

Lemma le_value_range (bs : bytes) :
  0 <= bufio.le_value bs < 256 ^ len bs.
Proof.
  induction bs as [|b bs IH]; cbn [bufio.le_value].
  - unfold len. simpl. lia.
  - pose proof (u8_range b). unfold len in *. cbn [List.length].
    rewrite Nat2Z.inj_succ, Z.pow_succ_r by lia. lia.
Qed.

Lemma le_value_le_bytes (n : nat) (z : Z) :
  bufio.le_value (bufio.le_bytes n z) = z mod 256 ^ Z.of_nat n.
Proof.
  revert z. induction n as [|n IH]; intros z.
  - simpl. now rewrite Z.mod_1_r.
  - cbn [bufio.le_bytes bufio.le_value]. rewrite IH, u8_byte_of_Z.
    rewrite Nat2Z.inj_succ, Z.pow_succ_r by lia.
    rewrite Z.rem_mul_r by lia. reflexivity.
Qed.

Lemma byte_of_Z_mod (z : Z) : byte_of_Z (z mod 256) = byte_of_Z z.
Proof. unfold byte_of_Z. now rewrite Z.mod_mod by lia. Qed.

Lemma le_bytes_le_value (bs : bytes) :
  bufio.le_bytes (List.length bs) (bufio.le_value bs) = bs.
Proof.
  induction bs as [|b bs IH];
    cbn [List.length bufio.le_bytes bufio.le_value]; [reflexivity|].
  pose proof (u8_range b) as Hb.
  assert (Hm : (u8 b + 256 * bufio.le_value bs) mod 256 = u8 b).
  { symmetry. apply Z.mod_unique with (q := bufio.le_value bs); lia. }
  assert (Hd : (u8 b + 256 * bufio.le_value bs) / 256 = bufio.le_value bs).
  { symmetry. apply Z.div_unique with (r := u8 b); lia. }
  rewrite Hd, IH. f_equal.
  rewrite <- byte_of_Z_mod, Hm. apply byte_of_Z_u8.
Qed.

Lemma le_bytes_length (n : nat) (z : Z) : List.length (bufio.le_bytes n z) = n.
Proof.
  revert z. induction n; intros z; simpl; [reflexivity|]. now rewrite IHn.
Qed.

Lemma be_bytes_length (n : nat) (z : Z) : List.length (bufio.be_bytes n z) = n.
Proof. unfold bufio.be_bytes. now rewrite length_rev, le_bytes_length. Qed.

Lemma be_value_be_bytes (n : nat) (z : Z) :
  bufio.be_value (bufio.be_bytes n z) = z mod 256 ^ Z.of_nat n.
Proof.
  unfold bufio.be_value, bufio.be_bytes. rewrite rev_involutive.
  apply le_value_le_bytes.
Qed.

(** ** Reading back what was written *)

Lemma readBytes_app (bs rest : bytes) :
  bufio.readBytes (len bs) (bs ++ rest) = Ok (bs, rest).
Proof.
  unfold bufio.readBytes, bufio.left. rewrite len_app.
  pose proof (len_nonneg bs). pose proof (len_nonneg rest).
  replace (0 <=? len bs) with true by (symmetry; apply Z.leb_le; lia).
  replace (len bs <=? len bs + len rest) with true
    by (symmetry; apply Z.leb_le; lia).
  simpl. unfold len. rewrite Nat2Z.id.
  rewrite firstn_app, Nat.sub_diag, firstn_all, firstn_O, app_nil_r.
  rewrite skipn_app, Nat.sub_diag, skipn_all. reflexivity.
Qed.

Lemma readBytes_exact (size : Z) (bs rest : bytes) :
  len bs = size ->
  bufio.readBytes size (bs ++ rest) = Ok (bs, rest).
Proof. intros <-. apply readBytes_app. Qed.

Lemma readBytes_le_bytes (n : nat) (z : Z) (rest : bytes) :
  bufio.readBytes (Z.of_nat n) (bufio.le_bytes n z ++ rest)
  = Ok (bufio.le_bytes n z, rest).
Proof.
  rewrite <- (le_bytes_length n z) at 1. apply readBytes_app.
Qed.

Lemma readU8_written (v : Z) (rest : bytes) :
  0 <= v < 256 ->
  bufio.readU8 (bufio.writeU8 v [] ++ rest) = Ok (v, rest).
Proof.
  intros Hv. unfold bufio.readU8, bufio.writeU8. rewrite app_nil_l.
  rewrite (readBytes_le_bytes 1). cbn [bind].
  rewrite le_value_le_bytes. change (256 ^ Z.of_nat 1) with 256.
  now rewrite Z.mod_small.
Qed.

Lemma readU16_written (v : Z) (rest : bytes) :
  0 <= v < 2 ^ 16 ->
  bufio.readU16 (bufio.writeU16 v [] ++ rest) = Ok (v, rest).
Proof.
  intros Hv. unfold bufio.readU16, bufio.writeU16. rewrite app_nil_l.
  rewrite (readBytes_le_bytes 2). cbn [bind].
  rewrite le_value_le_bytes. change (256 ^ Z.of_nat 2) with (2 ^ 16).
  now rewrite Z.mod_small.
Qed.

Lemma readU32_written (v : Z) (rest : bytes) :
  0 <= v < 2 ^ 32 ->
  bufio.readU32 (bufio.writeU32 v [] ++ rest) = Ok (v, rest).
Proof.
  intros Hv. unfold bufio.readU32, bufio.writeU32. rewrite app_nil_l.
  rewrite (readBytes_le_bytes 4). cbn [bind].
  rewrite le_value_le_bytes. change (256 ^ Z.of_nat 4) with (2 ^ 32).
  now rewrite Z.mod_small.
Qed.

Lemma readU32BE_written (v : Z) (rest : bytes) :
  0 <= v < 2 ^ 32 ->
  bufio.readU32BE (bufio.writeU32BE v [] ++ rest) = Ok (v, rest).
Proof.
  intros Hv. unfold bufio.readU32BE, bufio.writeU32BE. rewrite app_nil_l.
  rewrite readBytes_exact
    by (unfold len; now rewrite be_bytes_length).
  cbn [bind].
  rewrite be_value_be_bytes. change (256 ^ Z.of_nat 4) with (2 ^ 32).
  now rewrite Z.mod_small.
Qed.

Lemma readU64_written (v : Z) (rest : bytes) :
  0 <= v <= bufio.MAX_SAFE_INTEGER ->
  bufio.readU64 (bufio.writeU64 v [] ++ rest) = Ok (v, rest).
Proof.
  intros Hv. unfold bufio.readU64, bufio.writeU64. rewrite app_nil_l.
  rewrite (readBytes_le_bytes 8). cbn [bind].
  rewrite le_value_le_bytes. change (256 ^ Z.of_nat 8) with (2 ^ 64).
  unfold bufio.MAX_SAFE_INTEGER in *.
  rewrite Z.mod_small by lia.
  replace (v <=? 2 ^ 53 - 1) with true by (symmetry; apply Z.leb_le; lia).
  reflexivity.
Qed.

(** Every write appends to the writer. *)
Lemma writeVarint_app (num : Z) (bw : bufio.BufferWriter) :
  bufio.writeVarint num bw = bw ++ bufio.writeVarint num [].
Proof.
  unfold bufio.writeVarint, bufio.writeU8, bufio.writeU16, bufio.writeU32,
    bufio.writeU64.
  repeat match goal with |- context [if ?c then _ else _] => destruct c end;
    rewrite ?app_nil_l, <- ?app_assoc; reflexivity.
Qed.

Lemma writeVarBytes_app (value : bytes) (bw : bufio.BufferWriter) :
  bufio.writeVarBytes value bw = bw ++ bufio.writeVarBytes value [].
Proof.
  unfold bufio.writeVarBytes, bufio.writeBytes.
  rewrite writeVarint_app, <- app_assoc. reflexivity.
Qed.

Lemma readVarint_written (num : Z) (rest : bytes) :
  0 <= num <= bufio.MAX_SAFE_INTEGER ->
  bufio.readVarint (bufio.writeVarint num [] ++ rest) = Ok (num, rest).
Proof.
  intros Hn. unfold bufio.readVarint, bufio.writeVarint.
  destruct (num <? 0xfd) eqn:E1.
  { apply Z.ltb_lt in E1. rewrite readU8_written by lia. cbn [bind].
    replace (num =? 0xff) with false by (symmetry; apply Z.eqb_neq; lia).
    replace (num =? 0xfe) with false by (symmetry; apply Z.eqb_neq; lia).
    replace (num =? 0xfd) with false by (symmetry; apply Z.eqb_neq; lia).
    reflexivity. }
  apply Z.ltb_ge in E1.
  destruct (num <=? 0xffff) eqn:E2.
  { apply Z.leb_le in E2.
    unfold bufio.writeU16 at 1. rewrite <- app_assoc.
    rewrite readU8_written by lia. cbn [bind]. cbn [Z.eqb Pos.eqb].
    change (bufio.le_bytes 2 num) with (bufio.writeU16 num []).
    rewrite readU16_written by lia. cbn [bind].
    replace (253 <=? num) with true by (symmetry; apply Z.leb_le; lia).
    reflexivity. }
  apply Z.leb_gt in E2.
  destruct (num <=? 0xffffffff) eqn:E3.
  { apply Z.leb_le in E3.
    unfold bufio.writeU32 at 1. rewrite <- app_assoc.
    rewrite readU8_written by lia. cbn [bind]. cbn [Z.eqb Pos.eqb].
    change (bufio.le_bytes 4 num) with (bufio.writeU32 num []).
    rewrite readU32_written by lia. cbn [bind].
    replace (65535 <? num) with true by (symmetry; apply Z.ltb_lt; lia).
    reflexivity. }
  apply Z.leb_gt in E3.
  unfold bufio.writeU64 at 1. rewrite <- app_assoc.
  rewrite readU8_written by lia. cbn [bind]. cbn [Z.eqb Pos.eqb].
  change (bufio.le_bytes 8 num) with (bufio.writeU64 num []).
  rewrite readU64_written by lia. cbn [bind].
  replace (4294967295 <? num) with true by (symmetry; apply Z.ltb_lt; lia).
  reflexivity.
Qed.

Lemma readVarBytes_written (value rest : bytes) :
  len value <= bufio.MAX_SAFE_INTEGER ->
  bufio.readVarBytes (bufio.writeVarBytes value [] ++ rest) = Ok (value, rest).
Proof.
  intros Hl. unfold bufio.readVarBytes, bufio.writeVarBytes, bufio.writeBytes.
  rewrite <- app_assoc.
  rewrite readVarint_written by (pose proof (len_nonneg value); lia).
  cbn [bind]. apply readBytes_app.
Qed.

(** ** Path: binary form *)

Lemma Path_write_indexes (xs : list Z) (bw : bufio.BufferWriter) :
  fold_left (fun bw index => bufio.writeU32 index bw) xs bw
  = bw ++ List.concat (map (bufio.le_bytes 4) xs).
Proof.
  revert bw. induction xs as [|x xs IH]; intros bw; cbn [fold_left map List.concat].
  - now rewrite app_nil_r.
  - rewrite IH. unfold bufio.writeU32. now rewrite <- app_assoc.
Qed.

Lemma Path_readIndexes_written (xs : list Z) :
  Forall uint32 xs ->
  forall (fuel : nat) (acc : list Z),
    (List.length (List.concat (map (bufio.le_bytes 4) xs)) < fuel)%nat ->
    Path.readIndexes fuel acc (List.concat (map (bufio.le_bytes 4) xs))
    = Ok (acc ++ xs, []).
Proof.
  induction 1 as [|x xs Hx Hxs IH]; intros fuel acc Hfuel.
  - destruct fuel as [|fuel]; [inversion Hfuel|].
    cbn. now rewrite app_nil_r.
  - destruct fuel as [|fuel]; [inversion Hfuel|].
    cbn [map List.concat] in *. cbn [Path.readIndexes].
    rewrite length_app, le_bytes_length in Hfuel.
    unfold bufio.left, len. rewrite length_app, le_bytes_length.
    replace (Z.of_nat (4 + _) =? 0) with false
      by (symmetry; apply Z.eqb_neq; lia).
    change (bufio.le_bytes 4 x) with (bufio.writeU32 x []).
    rewrite readU32_written by exact Hx. cbn [bind].
    rewrite IH by lia. now rewrite <- app_assoc.
Qed.

Lemma Path_fromRaw_toRaw (f : Z) (xs : list Z) :
  uint32 f -> Forall uint32 xs ->
  Path.fromRaw (Path.toRaw (Path.mk f xs)) = Ok (Path.mk f xs).
Proof.
  intros Hf Hxs. unfold Path.fromRaw, Path.toRaw, Path.read, Path.write.
  cbn [Path.indexes Path.masterFingerPrint].
  rewrite Path_write_indexes.
  rewrite readU32BE_written by exact Hf. cbn [bind].
  rewrite Path_readIndexes_written by (auto; lia). reflexivity.
Qed.

(** X3.  [toRaw] allocates [getSize()] bytes and [write] fills them
    exactly: the encoding of a path is [getSize()] bytes long. *)
Lemma Path_toRaw_length (path : Path.t) :
  len (Path.toRaw path) = Path.getSize path.
Proof.
  unfold Path.toRaw, Path.write, Path.getSize.
  rewrite Path_write_indexes, len_app.
  change (len (bufio.writeU32BE (Path.masterFingerPrint path) [])) with 4.
  f_equal. induction (Path.indexes path) as [|x xs IH];
    cbn [map List.concat]; [reflexivity|].
  rewrite len_app, IH. unfold len. rewrite le_bytes_length.
  cbn [List.length]. lia.
Qed.

(** ** Path: text form *)

Lemma append_nil_r (s : string) : (s ++ "")%string = s.
Proof. induction s; simpl; congruence. Qed.

Lemma append_assoc (a b c : string) :
  ((a ++ b) ++ c)%string = (a ++ (b ++ c))%string.
Proof. induction a; simpl; congruence. Qed.

Lemma noChar_append (a : ascii) (s t : string) :
  noChar a (s ++ t) = noChar a s && noChar a t.
Proof.
  induction s as [|c s IH]; simpl; [reflexivity|].
  now rewrite IH, andb_assoc.
Qed.

Lemma noChar_uint (a : ascii) (d : Decimal.uint) :
  (Z.of_nat (nat_of_ascii a) < 48 \/ 57 < Z.of_nat (nat_of_ascii a)) ->
  noChar a (NilEmpty.string_of_uint d) = true.
Proof.
  intros Ha.
  assert (Hd : forall c, 48 <= Z.of_nat (nat_of_ascii c) <= 57 ->
                         Ascii.eqb c a = false).
  { intros c Hc. apply Ascii.eqb_neq. intros ->. lia. }
  induction d; cbn [NilEmpty.string_of_uint noChar]; [reflexivity|..];
    rewrite IHd, Hd; try reflexivity; simpl; lia.
Qed.

Lemma noChar_decimal (a : ascii) (n : Z) :
  (Z.of_nat (nat_of_ascii a) < 48 \/ 57 < Z.of_nat (nat_of_ascii a)) ->
  noChar a (HDCommon.decimal n) = true.
Proof.
  intros Ha. unfold HDCommon.decimal, NilZero.string_of_uint.
  destruct (N.to_uint (Z.to_N n)) eqn:E;
    try (rewrite <- E; now apply noChar_uint).
  cbn [noChar]. replace (Ascii.eqb "0" a) with false; [reflexivity|].
  symmetry. apply Ascii.eqb_neq. intros <-. simpl in Ha. lia.
Qed.

Lemma noChar_formatIndex_slash (i : Z) :
  noChar "/" (HDCommon.formatIndex i) = true.
Proof.
  unfold HDCommon.formatIndex.
  destruct (HDCommon.HARDENED <=? i);
    rewrite ?noChar_append, noChar_decimal; try reflexivity; simpl; lia.
Qed.

Lemma split_noChar (s : string) :
  noChar "/" s = true -> HDCommon.split s = [s].
Proof.
  induction s as [|c s IH]; simpl; [reflexivity|].
  intros E. apply andb_true_iff in E as [E1 E2].
  apply negb_true_iff in E1. rewrite E1, IH by exact E2. reflexivity.
Qed.

Lemma split_step (s t : string) :
  noChar "/" s = true ->
  HDCommon.split (s ++ String "/" t) = s :: HDCommon.split t.
Proof.
  induction s as [|c s IH]; simpl; [reflexivity|].
  intros E. apply andb_true_iff in E as [E1 E2].
  apply negb_true_iff in E1. rewrite E1, IH by exact E2. reflexivity.
Qed.

Lemma split_formatSteps (s : string) (xs : list Z) :
  noChar "/" s = true ->
  HDCommon.split (s ++ HDCommon.formatSteps xs)
  = s :: map HDCommon.formatIndex xs.
Proof.
  revert s. induction xs as [|x xs IH]; intros s Hs;
    cbn [HDCommon.formatSteps map].
  - rewrite append_nil_r. now apply split_noChar.
  - change ("/" ++ HDCommon.formatIndex x ++ HDCommon.formatSteps xs)%string
      with (String "/" (HDCommon.formatIndex x ++ HDCommon.formatSteps xs)).
    rewrite split_step by exact Hs. f_equal.
    apply IH, noChar_formatIndex_slash.
Qed.

Lemma stripQuote_noChar (s : string) :
  noChar "'" s = true -> HDCommon.stripQuote s = None.
Proof.
  induction s as [|c s IH]; [reflexivity|].
  cbn [noChar]. intros E. apply andb_true_iff in E as [E1 E2].
  apply negb_true_iff in E1. cbn [HDCommon.stripQuote].
  destruct s; [now rewrite E1|]. now rewrite IH.
Qed.

Lemma stripQuote_quoted (s : string) :
  HDCommon.stripQuote (s ++ "'") = Some s.
Proof.
  induction s as [|c s IH]; [reflexivity|].
  change (String c s ++ "'")%string with (String c (s ++ "'")).
  cbn [HDCommon.stripQuote]. rewrite IH.
  destruct s; reflexivity.
Qed.

Lemma uint_of_decimal (n : Z) :
  0 <= n ->
  NilZero.uint_of_string (HDCommon.decimal n) = Some (N.to_uint (Z.to_N n)).
Proof.
  intros Hn. unfold HDCommon.decimal. apply NilZero.usu.
  destruct (Z.to_N n); simpl; [discriminate|].
  intros E. pose proof (DecimalPos.Unsigned.to_uint_nonnil p). congruence.
Qed.

Lemma lor_HARDENED (a : Z) :
  0 <= a < HDCommon.HARDENED ->
  Z.lor a HDCommon.HARDENED = a + HDCommon.HARDENED.
Proof.
  intros Ha. unfold HDCommon.HARDENED in *.
  change 0x80000000 with (2 ^ 31) in *.
  assert (Hl : Z.land a (2 ^ 31) = 0).
  { apply Z.bits_inj'. intros n Hn.
    rewrite Z.land_spec, Z.bits_0, Z.pow2_bits_eqb by lia.
    destruct (Z.eqb_spec 31 n) as [<-|Hne]; [|apply andb_false_r].
    rewrite <- (Z.mod_small a (2 ^ 31)) by lia.
    rewrite Z.mod_pow2_bits_high by lia. reflexivity. }
  rewrite Z.add_nocarry_lxor by exact Hl. symmetry.
  now apply Z.lxor_lor.
Qed.

Lemma parseIndex_formatIndex (i : Z) :
  uint32 i ->
  HDCommon.parseIndex (HDCommon.formatIndex i) true = Ok i.
Proof.
  intros Hi. unfold uint32 in Hi. unfold HDCommon.parseIndex, HDCommon.formatIndex.
  destruct (HDCommon.HARDENED <=? i) eqn:E.
  - apply Z.leb_le in E. rewrite stripQuote_quoted.
    assert (Hr : 0 <= i - HDCommon.HARDENED < HDCommon.HARDENED)
      by (unfold HDCommon.HARDENED in *; lia).
    rewrite uint_of_decimal by lia.
    rewrite DecimalN.Unsigned.of_to, Z2N.id by lia.
    replace (i - HDCommon.HARDENED <=? 0xffffffff) with true
      by (symmetry; apply Z.leb_le; unfold HDCommon.HARDENED in *; lia).
    cbn [assert bind orb]. rewrite lor_HARDENED by exact Hr.
    f_equal. lia.
  - apply Z.leb_gt in E.
    rewrite stripQuote_noChar by (apply noChar_decimal; simpl; lia).
    rewrite uint_of_decimal by lia.
    rewrite DecimalN.Unsigned.of_to, Z2N.id by lia.
    replace (i <=? 0xffffffff) with true by (symmetry; apply Z.leb_le; lia).
    reflexivity.
Qed.

Lemma parseParts_formatIndex (xs : list Z) :
  Forall uint32 xs ->
  HDCommon.parseParts (map HDCommon.formatIndex xs) true = Ok xs.
Proof.
  induction 1 as [|x xs Hx Hxs IH]; cbn [map HDCommon.parseParts];
    [reflexivity|].
  rewrite parseIndex_formatIndex by exact Hx. cbn [bind].
  now rewrite IH.
Qed.

Lemma parsePath_toPath (xs : list Z) :
  Forall uint32 xs ->
  HDCommon.parsePath (HDCommon.toPath xs) true = Ok xs.
Proof.
  intros Hxs. unfold HDCommon.parsePath, HDCommon.toPath.
  rewrite split_formatSteps by reflexivity.
  cbn [String.eqb Ascii.eqb Bool.eqb assert bind].
  now apply parseParts_formatIndex.
Qed.

(** C7.  For a uint32 fingerprint and uint32 indexes, decoding the binary
    form of a path gives the path back, whatever decodes from it encodes to
    the same bytes, and parsing the text form of the path gives the indexes
    back. *)
Theorem Path_roundtrip (f : Z) (xs : list Z) :
  uint32 f -> Forall uint32 xs ->
  Path.fromRaw (Path.toRaw (Path.mk f xs)) = Ok (Path.mk f xs)
  /\ (forall p', Path.fromRaw (Path.toRaw (Path.mk f xs)) = Ok p' ->
                 Path.toRaw p' = Path.toRaw (Path.mk f xs))
  /\ (exists p',
         Path.fromString Path.new (Path.toPath (Path.mk f xs)) (Some f) = Ok p'
         /\ Path.indexes p' = xs
         /\ Path.masterFingerPrint p' = f).
Proof.
  intros Hf Hxs.
  pose proof (Path_fromRaw_toRaw f xs Hf Hxs) as Hraw.
  split; [exact Hraw|]. split.
  - intros p' Hp'. rewrite Hraw in Hp'. now injection Hp' as <-.
  - exists (Path.mk f xs).
    unfold Path.fromString, Path.fromPath, Path.toPath.
    cbn [Path.indexes]. rewrite parsePath_toPath by exact Hxs.
    cbn. auto.
Qed.

Lemma Path_roundtrip_witness :
  uint32 Examples.fingerPrint /\ Forall uint32 Examples.indexes
  /\ Path.fromRaw (Path.toRaw (Path.mk Examples.fingerPrint Examples.indexes))
     = Ok (Path.mk Examples.fingerPrint Examples.indexes).
Proof.
  assert (Hf : uint32 Examples.fingerPrint) by (unfold uint32; cbv; split; congruence).
  assert (Hx : Forall uint32 Examples.indexes)
    by (repeat constructor; cbv; congruence).
  split; [exact Hf|]. split; [exact Hx|].
  exact (proj1 (Path_roundtrip Examples.fingerPrint Examples.indexes Hf Hx)).
Defined.

(** ** Results *)

Lemma bind_Ok_inv {A B} (r : result A) (k : A -> result B) (b : B) :
  bind r k = Ok b -> exists a, r = Ok a /\ k a = Ok b.
Proof. destruct r as [a|e]; simpl; [eauto|discriminate]. Qed.

(** ** The reader only moves forward *)

Lemma readBytes_length (size : Z) (br : bufio.BufferReader) bs br' :
  bufio.readBytes size br = Ok (bs, br') ->
  len bs = size /\ br = bs ++ br'.
Proof.
  unfold bufio.readBytes, bufio.left.
  destruct ((0 <=? size) && (size <=? len br)) eqn:E; [|discriminate].
  apply andb_true_iff in E as [E1 E2].
  apply Z.leb_le in E1. apply Z.leb_le in E2. unfold len in *.
  intros H. injection H as <- <-. split.
  - rewrite length_firstn. lia.
  - now rewrite firstn_skipn.
Qed.

Lemma readBytes_shrinks (size : Z) (br : bufio.BufferReader) bs br' :
  bufio.readBytes size br = Ok (bs, br') ->
  Z.of_nat (List.length br') = Z.of_nat (List.length br) - size.
Proof.
  intros H. apply readBytes_length in H as [L ->].
  unfold len in L. rewrite length_app. lia.
Qed.

Lemma readU8_shrinks (br : bufio.BufferReader) v br' :
  bufio.readU8 br = Ok (v, br') ->
  (List.length br' < List.length br)%nat.
Proof.
  unfold bufio.readU8. intros H.
  apply bind_Ok_inv in H as ([bs br1] & H1 & H). injection H as _ <-.
  apply readBytes_shrinks in H1. lia.
Qed.

Lemma readU16_shrinks (br : bufio.BufferReader) v br' :
  bufio.readU16 br = Ok (v, br') ->
  (List.length br' < List.length br)%nat.
Proof.
  unfold bufio.readU16. intros H.
  apply bind_Ok_inv in H as ([bs br1] & H1 & H). injection H as _ <-.
  apply readBytes_shrinks in H1. lia.
Qed.

Lemma readU32_shrinks (br : bufio.BufferReader) v br' :
  bufio.readU32 br = Ok (v, br') ->
  (List.length br' < List.length br)%nat.
Proof.
  unfold bufio.readU32. intros H.
  apply bind_Ok_inv in H as ([bs br1] & H1 & H). injection H as _ <-.
  apply readBytes_shrinks in H1. lia.
Qed.

Lemma readU64_shrinks (br : bufio.BufferReader) v br' :
  bufio.readU64 br = Ok (v, br') ->
  (List.length br' < List.length br)%nat.
Proof.
  unfold bufio.readU64. intros H.
  apply bind_Ok_inv in H as ([bs br1] & H1 & H).
  apply bind_Ok_inv in H as (u & _ & H). injection H as _ <-.
  apply readBytes_shrinks in H1. lia.
Qed.

Lemma readVarint_shrinks (br : bufio.BufferReader) v br' :
  bufio.readVarint br = Ok (v, br') ->
  (List.length br' < List.length br)%nat.
Proof.
  unfold bufio.readVarint. intros H.
  apply bind_Ok_inv in H as ([p br1] & H1 & H).
  apply readU8_shrinks in H1.
  destruct (p =? 0xff).
  { apply bind_Ok_inv in H as ([w br2] & H2 & H).
    apply bind_Ok_inv in H as (u & _ & H). injection H as _ <-.
    apply readU64_shrinks in H2. lia. }
  destruct (p =? 0xfe).
  { apply bind_Ok_inv in H as ([w br2] & H2 & H).
    apply bind_Ok_inv in H as (u & _ & H). injection H as _ <-.
    apply readU32_shrinks in H2. lia. }
  destruct (p =? 0xfd).
  { apply bind_Ok_inv in H as ([w br2] & H2 & H).
    apply bind_Ok_inv in H as (u & _ & H). injection H as _ <-.
    apply readU16_shrinks in H2. lia. }
  injection H as _ <-. exact H1.
Qed.

Lemma readVarBytes_shrinks (br : bufio.BufferReader) bs br' :
  bufio.readVarBytes br = Ok (bs, br') ->
  (List.length br' < List.length br)%nat.
Proof.
  unfold bufio.readVarBytes. intros H.
  apply bind_Ok_inv in H as ([size br1] & H1 & H).
  apply readVarint_shrinks in H1.
  apply readBytes_length in H as [_ ->]. rewrite length_app in H1. lia.
Qed.

Section InputScope.
Context `{Collaborators}.

Lemma PSBTInput_readField_shrinks (self : PSBTInput.t) (key : bytes)
      (br : bufio.BufferReader) self' br' :
  PSBTInput.readField self key br = Ok (self', br') ->
  (List.length br' < List.length br)%nat.
Proof.
  unfold PSBTInput.readField. intros E.
  repeat match type of E with
         | (if ?c then _ else _) = _ => destruct c
         end;
    repeat match type of E with
           | bind (assert _ _) _ = Ok _ =>
               apply bind_Ok_inv in E as (? & _ & E)
           | bind (bufio.readVarBytes _) _ = Ok _ =>
               let Hr := fresh "Hr" in
               apply bind_Ok_inv in E as ([? ?] & Hr & E);
               apply readVarBytes_shrinks in Hr
           | bind _ _ = Ok _ => apply bind_Ok_inv in E as (? & _ & E)
           end;
    injection E as _ <-; assumption.
Qed.

(** Fuel above the number of unread bytes is enough: more changes
    nothing. *)
Lemma PSBTInput_readLoop_fuel (fuel1 : nat) :
  forall (fuel2 : nat) (self : PSBTInput.t) (br : bufio.BufferReader),
    (List.length br < fuel1)%nat -> (List.length br < fuel2)%nat ->
    PSBTInput.readLoop fuel1 self br = PSBTInput.readLoop fuel2 self br.
Proof.
  induction fuel1 as [|fuel1 IH]; intros fuel2 self br H1 H2;
    [inversion H1|].
  destruct fuel2 as [|fuel2]; [inversion H2|].
  cbn [PSBTInput.readLoop].
  destruct (bufio.left br =? 0); [reflexivity|].
  destruct (bufio.readVarBytes br) as [[key br1]|e] eqn:Ek; [|reflexivity].
  cbn [bind]. apply readVarBytes_shrinks in Ek.
  destruct (len key =? 0); [reflexivity|].
  destruct (PSBTInput.readField self key br1) as [[self' br2]|e] eqn:Ef;
    [|reflexivity].
  cbn [bind]. apply PSBTInput_readField_shrinks in Ef.
  apply IH; lia.
Qed.

Lemma PSBTInput_read_fuel (fuel : nat) (self : PSBTInput.t)
      (br : bufio.BufferReader) :
  (List.length br < fuel)%nat ->
  PSBTInput.readLoop fuel self br = PSBTInput.read self br.
Proof.
  intros Hf. unfold PSBTInput.read. apply PSBTInput_readLoop_fuel; lia.
Qed.

Lemma writeVarBytes_nonempty (value rest : bytes) :
  (0 < List.length (bufio.writeVarBytes value [] ++ rest))%nat.
Proof.
  unfold bufio.writeVarBytes, bufio.writeBytes, bufio.writeVarint,
    bufio.writeU8, bufio.writeU16, bufio.writeU32, bufio.writeU64.
  repeat match goal with |- context [if ?c then _ else _] => destruct c end;
    cbn [app bufio.le_bytes List.length]; lia.
Qed.

(** One record of an input scope: the key is read, the handler runs, the
    loop goes on behind the value. *)
Lemma PSBTInput_read_record (self : PSBTInput.t) (key : bytes)
      (br : bufio.BufferReader) :
  key <> [] -> len key <= bufio.MAX_SAFE_INTEGER ->
  PSBTInput.read self (bufio.writeVarBytes key [] ++ br)
  = ('(self', br') <- PSBTInput.readField self key br ;;
     PSBTInput.read self' br').
Proof.
  intros Hk Hl. unfold PSBTInput.read at 1. cbn [PSBTInput.readLoop].
  pose proof (writeVarBytes_nonempty key br) as Hne.
  unfold bufio.left.
  replace (len (bufio.writeVarBytes key [] ++ br) =? 0) with false
    by (symmetry; apply Z.eqb_neq; unfold len; lia).
  pose proof (readVarBytes_written key br Hl) as Hr. rewrite Hr.
  cbn [bind]. apply readVarBytes_shrinks in Hr.
  replace (len key =? 0) with false.
  2:{ symmetry. apply Z.eqb_neq. destruct key; [congruence|].
      unfold len. cbn [List.length]. lia. }
  destruct (PSBTInput.readField self key br) as [[self' br']|e] eqn:Ef;
    [|reflexivity].
  cbn [bind]. apply PSBTInput_readField_shrinks in Ef.
  apply PSBTInput_read_fuel. lia.
Qed.

(** The separator ends the scope. *)
Lemma PSBTInput_read_separator (self : PSBTInput.t)
      (br : bufio.BufferReader) :
  PSBTInput.read self (x00 :: br) = Ok (self, br).
Proof.
  unfold PSBTInput.read. cbn [PSBTInput.readLoop]. unfold bufio.left.
  replace (len (x00 :: br) =? 0) with false
    by (symmetry; apply Z.eqb_neq; unfold len; cbn [List.length]; lia).
  change (x00 :: br) with (bufio.writeVarBytes [] [] ++ br).
  rewrite readVarBytes_written by (vm_compute; discriminate).
  reflexivity.
Qed.

(** So does the end of the data. *)
Lemma PSBTInput_read_end (self : PSBTInput.t) :
  PSBTInput.read self [] = Ok (self, []).
Proof. reflexivity. Qed.

End InputScope.

Lemma record_app (key value rest : bytes) :
  record key value ++ rest
  = bufio.writeVarBytes key [] ++ bufio.writeVarBytes value [] ++ rest.
Proof.
  unfold record. rewrite writeVarBytes_app. now rewrite <- app_assoc.
Qed.

(** ** What a failing read throws *)

Lemma readBytes_error (size : Z) (br : bufio.BufferReader) (e : error) :
  bufio.readBytes size br = Err e -> e = FrameError.
Proof.
  unfold bufio.readBytes. destruct (_ && _); [discriminate|congruence].
Qed.

Ltac frame_error H :=
  repeat match type of H with
         | bind ?r _ = Err _ =>
             let E := fresh "E" in
             destruct r as [[? ?]|?] eqn:E; cbn [bind] in H;
             [|injection H as <-]
         | bind (assert ?c _) _ = Err _ =>
             destruct c; cbn [assert bind] in H
         | (if ?c then _ else _) = Err _ => destruct c
         | Ok _ = Err _ => discriminate H
         | Err _ = Err _ => injection H as <-; reflexivity
         end.

Lemma readU8_error br e : bufio.readU8 br = Err e -> e = FrameError.
Proof.
  unfold bufio.readU8. intros H. frame_error H. eauto using readBytes_error.
Qed.


Lemma readU32_error br e : bufio.readU32 br = Err e -> e = FrameError.
Proof.
  unfold bufio.readU32. intros H. frame_error H. eauto using readBytes_error.
Qed.





(** ** BufferMap *)

Lemma BufferMap_set_set {V} (m : BufferMap.t V) (key : bytes) (v1 v2 : V) :
  BufferMap.set (BufferMap.set m key v1) key v2 = BufferMap.set m key v2.
Proof.
  induction m as [|[k v] m IH]; cbn [BufferMap.set].
  - now rewrite bytes_eqb_refl.
  - destruct (bytes_eqb k key) eqn:E; cbn [BufferMap.set]; rewrite E;
      [reflexivity|now rewrite IH].
Qed.

Lemma BufferMap_get_set {V} (m : BufferMap.t V) (key : bytes) (v : V) :
  BufferMap.get (BufferMap.set m key v) key = Some v.
Proof.
  induction m as [|[k w] m IH]; cbn [BufferMap.set BufferMap.get].
  - now rewrite bytes_eqb_refl.
  - destruct (bytes_eqb k key) eqn:E; cbn [BufferMap.get]; rewrite E;
      [reflexivity|exact IH].
Qed.

Lemma BufferMap_set_length {V} (m : BufferMap.t V) (key : bytes) (v : V) :
  BufferMap.has m key = true ->
  List.length (BufferMap.set m key v) = List.length m.
Proof.
  unfold BufferMap.has.
  induction m as [|[k w] m IH]; cbn [BufferMap.set BufferMap.get];
    [discriminate|].
  destruct (bytes_eqb k key); cbn [List.length]; [reflexivity|].
  intros E. now rewrite IH.
Qed.

(** ** PSBTInput.isSane *)

(** C6.  [isSane] is a total function of the input record alone: it returns
    a boolean for every record and has nothing to mutate.  It returns false
    exactly when both UTXO kinds are present, or a witness redeem script is
    present without a witness UTXO, or a finalized witness stack is present
    without a witness UTXO. *)
Theorem PSBTInput_isSane_false_iff (input : PSBTInput.t) :
  PSBTInput.isSane input = false
  <-> (PSBTInput.tx input <> None /\ PSBTInput.output input <> None)
      \/ (PSBTInput.redeemWitness input <> None
          /\ PSBTInput.output input = None)
      \/ (PSBTInput.witnessStack input <> None
          /\ PSBTInput.output input = None).
Proof.
  unfold PSBTInput.isSane.
  destruct (PSBTInput.tx input), (PSBTInput.output input),
    (PSBTInput.redeemWitness input), (PSBTInput.witnessStack input);
    cbn; split; intros E; try discriminate; try reflexivity;
    try (left; split; discriminate);
    try (right; left; split; [discriminate|reflexivity]);
    try (right; right; split; [discriminate|reflexivity]);
    destruct E as [[E1 E2]|[[E1 E2]|[E1 E2]]]; congruence.
Qed.

(** ** The SIGHASH record and its sentinel *)

Section Sighash.
Context `{Collaborators}.

Lemma set_hashType_same (self : PSBTInput.t) :
  PSBTInput.set_hashType self (PSBTInput.hashType self) = self.
Proof. destruct self; reflexivity. Qed.

Lemma readField_SIGHASH (self : PSBTInput.t) (key : bytes)
      (br : bufio.BufferReader) :
  u8 (nth 0 key x00) = common.inputTypes.SIGHASH ->
  PSBTInput.readField self key br
  = (_ <- assert (PSBTInput.hashType self =? 0) DuplicateField ;;
     '(hashType, br) <- bufio.readVarBytes br ;;
     value <- bufio.readU32_at hashType 0 ;;
     Ok (PSBTInput.set_hashType self value, br)).
Proof. intros E. unfold PSBTInput.readField. rewrite E. reflexivity. Qed.




End Sighash.

(** ** Duplicate records in an input scope *)

Section Duplicates.
Context `{Collaborators}.

(** X19. The handlers that guard their slot: a populated slot is a
    [DuplicateField], whatever follows in the reader. *)
Lemma PSBTInput_readField_guarded (self : PSBTInput.t) (key : bytes)
      (br : bufio.BufferReader) :
  let type := u8 (nth 0 key x00) in
  (type = common.inputTypes.NON_WITNESS_UTXO /\ PSBTInput.tx self <> None)
  \/ (type = common.inputTypes.WITNESS_UTXO
      /\ PSBTInput.output self <> None)
  \/ (type = common.inputTypes.SIGHASH /\ PSBTInput.hashType self <> 0)
  \/ (type = common.inputTypes.REDEEMSCRIPT
      /\ PSBTInput.redeem self <> None)
  \/ (type = common.inputTypes.WITNESSSCRIPT
      /\ PSBTInput.redeemWitness self <> None)
  \/ (type = common.inputTypes.SCRIPTSIG /\ PSBTInput.script self <> None)
  \/ (type = common.inputTypes.SCRIPTWITNESS
      /\ PSBTInput.witnessStack self <> None)
  \/ (8 < type /\ BufferMap.has (PSBTInput.unknown self) key = true) ->
  PSBTInput.readField self key br = Err DuplicateField.
Proof.
  intros type Hc. subst type. unfold PSBTInput.readField.
  destruct Hc as [[-> Hs]|[[-> Hs]|[[-> Hs]|[[-> Hs]|[[-> Hs]|[[-> Hs]|
                 [[-> Hs]|[Ht Hs]]]]]]]]; cbn [Z.eqb Pos.eqb];
    try (match goal with
         | Hs : ?f self <> None |- _ => destruct (f self); [|congruence]
         end; reflexivity).
  - apply Z.eqb_neq in Hs. rewrite Hs. reflexivity.
  - unfold common.inputTypes.NON_WITNESS_UTXO, common.inputTypes.WITNESS_UTXO,
      common.inputTypes.PARTIAL_SIG, common.inputTypes.SIGHASH,
      common.inputTypes.REDEEMSCRIPT, common.inputTypes.WITNESSSCRIPT,
      common.inputTypes.BIP32_DERIVATION, common.inputTypes.SCRIPTSIG,
      common.inputTypes.SCRIPTWITNESS.
    repeat match goal with
           | |- context [?a =? ?b] =>
               replace (a =? b) with false
                 by (symmetry; apply Z.eqb_neq; lia)
           end.
    rewrite Hs. reflexivity.
Qed.

Lemma readField_PARTIAL_SIG (self : PSBTInput.t) (pubkey signature : bytes)
      (br : bufio.BufferReader) :
  len pubkey = 33 \/ len pubkey = 65 ->
  publicKeyVerify pubkey = true ->
  len signature <= bufio.MAX_SAFE_INTEGER ->
  PSBTInput.readField self (x02 :: pubkey)
    (bufio.writeVarBytes signature [] ++ br)
  = Ok (PSBTInput.set_signatures self
          (BufferMap.set (PSBTInput.signatures self)
             (hash160_digest pubkey) (pubkey, signature)), br).
Proof.
  intros Hl Hv Hs. unfold PSBTInput.readField.
  cbn [nth skipn]. change (u8 x02) with 2. cbn [Z.eqb Pos.eqb].
  replace ((len (x02 :: pubkey) =? 33 + 1) || (len (x02 :: pubkey) =? 65 + 1))
    with true.
  2:{ symmetry. apply orb_true_iff. unfold len in *. cbn [List.length].
      rewrite !Z.eqb_eq. lia. }
  cbn [assert bind]. rewrite Hv. cbn [assert bind].
  rewrite readVarBytes_written by exact Hs. reflexivity.
Qed.

Lemma readField_BIP32_DERIVATION (self : PSBTInput.t) (pubkey rawPath : bytes)
      (path : Path.t) (br : bufio.BufferReader) :
  publicKeyVerify pubkey = true ->
  len rawPath <= bufio.MAX_SAFE_INTEGER ->
  Path.fromRaw rawPath = Ok path ->
  PSBTInput.readField self (x06 :: pubkey)
    (bufio.writeVarBytes rawPath [] ++ br)
  = Ok (PSBTInput.set_paths self
          (BufferMap.set (PSBTInput.paths self)
             (hash160_digest pubkey) path), br).
Proof.
  intros Hv Hs Hp. unfold PSBTInput.readField.
  cbn [nth skipn]. change (u8 x06) with 6. cbn [Z.eqb Pos.eqb].
  rewrite Hv. cbn [assert bind].
  rewrite readVarBytes_written by exact Hs. cbn [bind].
  rewrite Hp. reflexivity.
Qed.

Lemma len_cons_bound (b : byte) (bs : bytes) :
  len bs <= 65 -> len (b :: bs) <= bufio.MAX_SAFE_INTEGER.
Proof.
  unfold len, bufio.MAX_SAFE_INTEGER. cbn [List.length]. lia.
Qed.

(** Evaluation for C4.  Two partial-signature records under one public
    key in one input scope: the second is not refused, it replaces the
    signature of the first; the scope decodes to an input that holds one
    signature for the key, the second.  The same holds for two BIP32
    derivation records under one public key. *)
Theorem PSBTInput_duplicate_key_accepted
        (self : PSBTInput.t) (pubkey sig1 sig2 raw1 raw2 rest : bytes)
        (path1 path2 : Path.t) :
  len pubkey = 33 \/ len pubkey = 65 ->
  publicKeyVerify pubkey = true ->
  len sig1 <= bufio.MAX_SAFE_INTEGER ->
  len sig2 <= bufio.MAX_SAFE_INTEGER ->
  len raw1 <= bufio.MAX_SAFE_INTEGER ->
  len raw2 <= bufio.MAX_SAFE_INTEGER ->
  Path.fromRaw raw1 = Ok path1 ->
  Path.fromRaw raw2 = Ok path2 ->
  PSBTInput.read self
    (record (x02 :: pubkey) sig1 ++ record (x02 :: pubkey) sig2 ++ rest)
  = PSBTInput.read
      (PSBTInput.set_signatures self
         (BufferMap.set (PSBTInput.signatures self)
            (hash160_digest pubkey) (pubkey, sig2))) rest
  /\ PSBTInput.fromReader
       (record (x02 :: pubkey) sig1 ++ record (x02 :: pubkey) sig2 ++ [x00])
     = Ok (PSBTInput.set_signatures PSBTInput.new
             [(hash160_digest pubkey, (pubkey, sig2))], [])
  /\ PSBTInput.read self
       (record (x06 :: pubkey) raw1 ++ record (x06 :: pubkey) raw2 ++ rest)
     = PSBTInput.read
         (PSBTInput.set_paths self
            (BufferMap.set (PSBTInput.paths self)
               (hash160_digest pubkey) path2)) rest.
Proof.
  intros Hl Hv Hs1 Hs2 Hr1 Hr2 Hp1 Hp2.
  assert (Hk : forall b, len (b :: pubkey) <= bufio.MAX_SAFE_INTEGER)
    by (intros b; apply len_cons_bound; lia).
  assert (Hsig : forall s r,
    PSBTInput.read s
      (record (x02 :: pubkey) sig1 ++ record (x02 :: pubkey) sig2 ++ r)
    = PSBTInput.read
        (PSBTInput.set_signatures s
           (BufferMap.set (PSBTInput.signatures s)
              (hash160_digest pubkey) (pubkey, sig2))) r).
  { intros s r.
    rewrite record_app, PSBTInput_read_record by (auto; discriminate).
    rewrite readField_PARTIAL_SIG by assumption. cbn [bind].
    rewrite record_app, PSBTInput_read_record by (auto; discriminate).
    rewrite readField_PARTIAL_SIG by assumption. cbn [bind].
    destruct s. cbn [PSBTInput.set_signatures PSBTInput.signatures
                     PSBTInput.tx PSBTInput.output PSBTInput.redeem
                     PSBTInput.redeemWitness PSBTInput.script
                     PSBTInput.witnessStack PSBTInput.hashType
                     PSBTInput.paths PSBTInput.unknown].
    now rewrite BufferMap_set_set. }
  split; [apply Hsig|]. split.
  - unfold PSBTInput.fromReader. rewrite Hsig.
    now rewrite PSBTInput_read_separator.
  - rewrite record_app, PSBTInput_read_record by (auto; discriminate).
    rewrite (readField_BIP32_DERIVATION _ _ _ path1) by assumption.
    cbn [bind].
    rewrite record_app, PSBTInput_read_record by (auto; discriminate).
    rewrite (readField_BIP32_DERIVATION _ _ _ path2) by assumption.
    cbn [bind].
    destruct self. cbn [PSBTInput.set_paths PSBTInput.signatures
                     PSBTInput.tx PSBTInput.output PSBTInput.redeem
                     PSBTInput.redeemWitness PSBTInput.script
                     PSBTInput.witnessStack PSBTInput.hashType
                     PSBTInput.paths PSBTInput.unknown].
    now rewrite BufferMap_set_set.
Qed.

End Duplicates.

(** ** The global scope *)

Lemma len_zero_iff {A} (l : list A) : (len l =? 0) = true <-> l = [].
Proof.
  unfold len. destruct l; cbn [List.length]; split; intros E;
    try reflexivity; discriminate.
Qed.

Lemma allInputsUnsigned_false_iff (inputs : list Input.t) :
  PSBT.allInputsUnsigned inputs = false <-> Exists signedInput inputs.
Proof.
  induction inputs as [|input inputs IH]; cbn [PSBT.allInputsUnsigned].
  - split; [discriminate|]. intros E. inversion E.
  - destruct (len (Script.raw (Input.script input)) =? 0) eqn:E1;
      destruct (len (Witness.items (Input.witness input)) =? 0) eqn:E2;
      cbn [negb orb].
    + apply len_zero_iff in E1. apply len_zero_iff in E2.
      rewrite IH. split; [now apply Exists_cons_tl|].
      intros E. inversion E as [? ? [Hs|Hs]|]; subst; congruence.
    + split; [|reflexivity]. intros _. apply Exists_cons_hd. right.
      intros E. apply len_zero_iff in E. congruence.
    + split; [|reflexivity]. intros _. apply Exists_cons_hd. left.
      intros E. apply len_zero_iff in E. congruence.
    + split; [|reflexivity]. intros _. apply Exists_cons_hd. left.
      intros E. apply len_zero_iff in E. congruence.
Qed.

Lemma isTransactionUnsigned_true_iff (tx : TX.t) :
  PSBT.isTransactionUnsigned tx = true
  <-> Forall (fun input => Script.raw (Input.script input) = []
                           /\ Witness.items (Input.witness input) = [])
             (TX.inputs tx).
Proof.
  unfold PSBT.isTransactionUnsigned.
  induction (TX.inputs tx) as [|input inputs IH]; cbn [PSBT.allInputsUnsigned].
  - split; [constructor|reflexivity].
  - destruct (len (Script.raw (Input.script input)) =? 0) eqn:E1;
      destruct (len (Witness.items (Input.witness input)) =? 0) eqn:E2;
      cbn [negb orb];
      try (split; [discriminate|]; intros E; inversion E as [|? ? [Hs Hw] ?];
           subst; apply len_zero_iff in Hs; apply len_zero_iff in Hw;
           congruence).
    apply len_zero_iff in E1. apply len_zero_iff in E2.
    rewrite IH. split.
    + intros E. constructor; auto.
    + intros E. now inversion E.
Qed.

Section GlobalScope.
Context `{Collaborators}.

Lemma PSBT_readField_shrinks (self : PSBT.t) (key : bytes)
      (br : bufio.BufferReader) self' br' :
  PSBT.readField self key br = Ok (self', br') ->
  (List.length br' < List.length br)%nat
  /\ PSBT.inputs self' = PSBT.inputs self
  /\ PSBT.outputs self' = PSBT.outputs self.
Proof.
  unfold PSBT.readField. intros E.
  destruct (_ =? _).
  - apply bind_Ok_inv in E as (? & _ & E).
    apply bind_Ok_inv in E as ([raw br1] & Hr & E).
    apply bind_Ok_inv in E as (tx & _ & E).
    apply bind_Ok_inv in E as (? & _ & E).
    injection E as <- <-. apply readVarBytes_shrinks in Hr. auto.
  - apply bind_Ok_inv in E as (? & _ & E).
    apply bind_Ok_inv in E as ([raw br1] & Hr & E).
    injection E as <- <-. apply readVarBytes_shrinks in Hr. auto.
Qed.

(** The two handlers of the global scope guard their slot: a second
    transaction record, or an unknown key seen before, is a
    [DuplicateField]. *)
Lemma PSBT_readField_guarded (self : PSBT.t) (key : bytes)
      (br : bufio.BufferReader) :
  (u8 (nth 0 key x00) = common.globalTypes.UNSIGNED_TX
   /\ PSBT.mtx self <> None)
  \/ (u8 (nth 0 key x00) <> common.globalTypes.UNSIGNED_TX
      /\ BufferMap.has (PSBT.unknown self) key = true) ->
  PSBT.readField self key br = Err DuplicateField.
Proof.
  unfold PSBT.readField. intros [[-> Hm]|[Ht Hu]].
  - cbn [Z.eqb]. destruct (PSBT.mtx self); [reflexivity|congruence].
  - apply Z.eqb_neq in Ht. rewrite Ht, Hu. reflexivity.
Qed.

Lemma PSBT_readGlobal_fuel (fuel1 : nat) :
  forall (fuel2 : nat) (self : PSBT.t) (br : bufio.BufferReader),
    (List.length br < fuel1)%nat -> (List.length br < fuel2)%nat ->
    PSBT.readGlobal fuel1 self br = PSBT.readGlobal fuel2 self br.
Proof.
  induction fuel1 as [|fuel1 IH]; intros fuel2 self br H1 H2;
    [inversion H1|].
  destruct fuel2 as [|fuel2]; [inversion H2|].
  cbn [PSBT.readGlobal].
  destruct (bufio.left br =? 0); [reflexivity|].
  destruct (bufio.readVarBytes br) as [[key br1]|e] eqn:Ek; [|reflexivity].
  cbn [bind]. apply readVarBytes_shrinks in Ek.
  destruct (len key =? 0); [reflexivity|].
  destruct (PSBT.readField self key br1) as [[self' br2]|e] eqn:Ef;
    [|reflexivity].
  cbn [bind]. apply PSBT_readField_shrinks in Ef as [Ef _].
  apply IH; lia.
Qed.

(** The global scope leaves the record lists alone. *)
Lemma PSBT_readGlobal_records (fuel : nat) :
  forall (self : PSBT.t) (br : bufio.BufferReader) self' br',
    PSBT.readGlobal fuel self br = Ok (self', br') ->
    PSBT.inputs self' = PSBT.inputs self
    /\ PSBT.outputs self' = PSBT.outputs self.
Proof.
  induction fuel as [|fuel IH]; intros self br self' br' E;
    [discriminate|].
  cbn [PSBT.readGlobal] in E.
  destruct (bufio.left br =? 0); [injection E as <- <-; auto|].
  apply bind_Ok_inv in E as ([key br1] & _ & E).
  destruct (len key =? 0); [injection E as <- <-; auto|].
  apply bind_Ok_inv in E as ([self1 br2] & Ef & E).
  apply PSBT_readField_shrinks in Ef as (_ & Hi & Ho).
  apply IH in E as [Hi' Ho']. split; congruence.
Qed.

Lemma PSBT_readInputs_length (count : nat) :
  forall (inputs : list PSBTInput.t) (br : bufio.BufferReader) inputs' br',
    PSBT.readInputs count inputs br = Ok (inputs', br') ->
    List.length inputs' = (List.length inputs + count)%nat.
Proof.
  induction count as [|count IH]; intros inputs br inputs' br' E;
    cbn [PSBT.readInputs] in E.
  - injection E as <- <-. lia.
  - apply bind_Ok_inv in E as ([input br1] & _ & E).
    apply IH in E. rewrite length_app in E. cbn [List.length] in E. lia.
Qed.

Lemma PSBT_readField_UNSIGNED_TX (self : PSBT.t) (extra rawTX : bytes)
      (tx : TX.t) (br : bufio.BufferReader) :
  PSBT.mtx self = None ->
  len rawTX <= bufio.MAX_SAFE_INTEGER ->
  MTX_fromRaw rawTX = Ok tx ->
  PSBT.readField self (x00 :: extra) (bufio.writeVarBytes rawTX [] ++ br)
  = if PSBT.isTransactionUnsigned tx
    then Ok (PSBT.set_mtx self tx, br)
    else Err InvalidFieldCombination.
Proof.
  intros Hm Hl Hp. unfold PSBT.readField. cbn [nth].
  change (u8 x00 =? common.globalTypes.UNSIGNED_TX) with true. cbv iota.
  rewrite Hm. cbn [truthy negb assert bind].
  rewrite readVarBytes_written by exact Hl. cbn [bind].
  rewrite Hp. cbn [bind].
  destruct (PSBT.isTransactionUnsigned tx); reflexivity.
Qed.

(** One record of the global scope. *)
Lemma PSBT_readGlobal_record (fuel : nat) (self : PSBT.t) (key : bytes)
      (br : bufio.BufferReader) :
  key <> [] -> len key <= bufio.MAX_SAFE_INTEGER ->
  PSBT.readGlobal (S fuel) self (bufio.writeVarBytes key [] ++ br)
  = ('(self', br') <- PSBT.readField self key br ;;
     PSBT.readGlobal fuel self' br').
Proof.
  intros Hk Hl. cbn [PSBT.readGlobal].
  pose proof (writeVarBytes_nonempty key br) as Hne.
  unfold bufio.left.
  replace (len (bufio.writeVarBytes key [] ++ br) =? 0) with false
    by (symmetry; apply Z.eqb_neq; unfold len; lia).
  rewrite readVarBytes_written by exact Hl. cbn [bind].
  replace (len key =? 0) with false; [reflexivity|].
  symmetry. apply not_true_iff_false. rewrite len_zero_iff. exact Hk.
Qed.

Lemma PSBT_read_envelope (self : PSBT.t) (br : bufio.BufferReader) :
  PSBT.read self (envelope ++ br)
  = ('(self, br) <- PSBT.readGlobal (S (List.length br)) self br ;;
     match PSBT.mtx self with
     | None => Err MissingRequiredField
     | Some mtx =>
         '(inputs, br) <-
           PSBT.readInputs (List.length (TX.inputs mtx))
                           (PSBT.inputs self) br ;;
         Ok (PSBT.set_inputs self inputs, br)
     end).
Proof.
  unfold PSBT.read, envelope. unfold bufio.writeU8 at 1.
  rewrite <- app_assoc.
  rewrite readU32BE_written by (vm_compute; split; congruence).
  cbn [bind].
  change (bufio.le_bytes 1 common.MAGIC_SEP)
    with (bufio.writeU8 common.MAGIC_SEP []).
  rewrite readU8_written by (vm_compute; split; congruence).
  cbn [bind]. rewrite !Z.eqb_refl. reflexivity.
Qed.

(** C5.  The check on the embedded transaction runs in the handler of the
    global 0x00 record, right behind the parse of the transaction.  When
    an input of the transaction carries a script or a witness the handler
    fails with InvalidFieldCombination, whatever bytes follow, and so do
    the loop of the global scope standing at that record and the decoding
    of a PSBT that starts with it.  When every input has an empty script
    and an empty witness the handler stores the transaction and goes
    on. *)
Theorem PSBT_signed_transaction_refused
        (extra rawTX rest : bytes) (tx : TX.t) :
  len (x00 :: extra) <= bufio.MAX_SAFE_INTEGER ->
  len rawTX <= bufio.MAX_SAFE_INTEGER ->
  MTX_fromRaw rawTX = Ok tx ->
  (PSBT.isTransactionUnsigned tx = false <-> Exists signedInput (TX.inputs tx))
  /\ (Exists signedInput (TX.inputs tx) ->
      (forall self, PSBT.mtx self = None ->
         PSBT.readField self (x00 :: extra)
           (bufio.writeVarBytes rawTX [] ++ rest)
         = Err InvalidFieldCombination)
      /\ (forall fuel self, PSBT.mtx self = None ->
            PSBT.readGlobal (S fuel) self
              (record (x00 :: extra) rawTX ++ rest)
            = Err InvalidFieldCombination)
      /\ PSBT.fromRaw (envelope ++ record (x00 :: extra) rawTX ++ rest)
         = Err InvalidFieldCombination)
  /\ (~ Exists signedInput (TX.inputs tx) ->
      forall self, PSBT.mtx self = None ->
        PSBT.readField self (x00 :: extra)
          (bufio.writeVarBytes rawTX [] ++ rest)
        = Ok (PSBT.set_mtx self tx, rest)).
Proof.
  intros Hk Hl Hp.
  assert (Hiff : PSBT.isTransactionUnsigned tx = false
                 <-> Exists signedInput (TX.inputs tx))
    by apply allInputsUnsigned_false_iff.
  split; [exact Hiff|]. split.
  - intros Hs. apply Hiff in Hs.
    assert (Hf : forall self, PSBT.mtx self = None ->
              PSBT.readField self (x00 :: extra)
                (bufio.writeVarBytes rawTX [] ++ rest)
              = Err InvalidFieldCombination).
    { intros self Hm.
      rewrite (PSBT_readField_UNSIGNED_TX self extra rawTX tx) by assumption.
      now rewrite Hs. }
    assert (Hg : forall fuel self, PSBT.mtx self = None ->
              PSBT.readGlobal (S fuel) self
                (record (x00 :: extra) rawTX ++ rest)
              = Err InvalidFieldCombination).
    { intros fuel self Hm.
      rewrite record_app, PSBT_readGlobal_record by (auto; discriminate).
      now rewrite Hf. }
    split; [exact Hf|]. split; [exact Hg|].
    unfold PSBT.fromRaw. rewrite PSBT_read_envelope.
    now rewrite Hg.
  - intros Hs self Hm.
    rewrite (PSBT_readField_UNSIGNED_TX self extra rawTX tx) by assumption.
    destruct (PSBT.isTransactionUnsigned tx) eqn:E; [reflexivity|].
    exfalso. apply Hs. now apply allInputsUnsigned_false_iff.
Qed.

(** Evaluation for C3.  Whatever bytes decode, the decoded PSBT holds one
    input record for every input of its transaction and no output record
    at all: the decoder never reads an output scope. *)
Theorem PSBT_read_record_counts (data : bytes) (psbt : PSBT.t) :
  PSBT.fromRaw data = Ok psbt ->
  exists tx,
    PSBT.mtx psbt = Some tx
    /\ List.length (PSBT.inputs psbt) = List.length (TX.inputs tx)
    /\ PSBT.outputs psbt = [].
Proof.
  unfold PSBT.fromRaw, PSBT.read. intros E.
  apply bind_Ok_inv in E as ([p br] & E & Ep). injection Ep as ->.
  apply bind_Ok_inv in E as ([magic br1] & _ & E).
  apply bind_Ok_inv in E as ([sep br2] & _ & E).
  apply bind_Ok_inv in E as (? & _ & E).
  apply bind_Ok_inv in E as ([self br3] & Eg & E).
  apply PSBT_readGlobal_records in Eg as [Hi Ho].
  cbn [PSBT.new PSBT.inputs PSBT.outputs] in Hi, Ho.
  destruct (PSBT.mtx self) as [tx|] eqn:Em; [|discriminate].
  apply bind_Ok_inv in E as ([inputs br4] & Er & E).
  injection E as <- _. exists tx.
  apply PSBT_readInputs_length in Er. rewrite Hi in Er.
  cbn [PSBT.set_inputs PSBT.mtx PSBT.inputs PSBT.outputs].
  auto.
Qed.

End GlobalScope.

(** ** Merge *)

Lemma PSBT_mergeInputs_same (mine : list PSBTInput.t) :
  forall (i : nat) (theirs : list PSBTInput.t),
    (i + List.length mine <= List.length theirs)%nat ->
    PSBT.mergeInputs i mine theirs = Ok mine.
Proof.
  induction mine as [|input mine IH]; intros i theirs Hl;
    cbn [PSBT.mergeInputs]; [reflexivity|].
  cbn [List.length] in Hl.
  destruct (nth_error theirs i) as [other|] eqn:E.
  - rewrite IH by lia. reflexivity.
  - apply nth_error_None in E. lia.
Qed.

(** Evaluation for C2.  For two PSBTs with as many input records and as
    many output records, [merge] leaves [this] exactly as it was when
    [this] has no output record, whatever the other side holds: nothing of
    the other side is copied, no map grows, no conflict is raised.  When
    [this] has an output record the call fails with a TypeError. *)
Theorem PSBT_merge_copies_nothing (A B : PSBT.t) :
  List.length (PSBT.inputs A) = List.length (PSBT.inputs B) ->
  List.length (PSBT.outputs A) = List.length (PSBT.outputs B) ->
  (PSBT.outputs A = [] /\ PSBT.merge A B = Ok A)
  \/ (PSBT.outputs A <> [] /\ PSBT.merge A B = Err TypeError).
Proof.
  intros Hi Ho. unfold PSBT.merge.
  rewrite PSBT_mergeInputs_same by (cbn; lia). cbn [bind].
  destruct A as [ins outs unk m]. cbn [PSBT.outputs PSBT.inputs] in *.
  destruct outs as [|o outs].
  - left. split; reflexivity.
  - right. split; [discriminate|].
    destruct (PSBT.outputs B) as [|o' outs']; [discriminate|]. reflexivity.
Qed.

(** ** Encoding *)

Section Encoding.
Context `{Collaborators}.


End Encoding.

(** ** Sizes: getSize against write *)

Lemma len_writeVarint (num : Z) (bw : bufio.BufferWriter) :
  len (bufio.writeVarint num bw) = len bw + bufio.sizeVarint num.
Proof.
  unfold bufio.writeVarint, bufio.sizeVarint, bufio.writeU8, bufio.writeU16,
    bufio.writeU32, bufio.writeU64.
  repeat match goal with |- context [if ?c then _ else _] => destruct c end;
    rewrite ?len_app; unfold len; rewrite ?le_bytes_length; lia.
Qed.

Lemma len_writeVarBytes (value : bytes) (bw : bufio.BufferWriter) :
  len (bufio.writeVarBytes value bw) = len bw + valueSize value.
Proof.
  unfold bufio.writeVarBytes, bufio.writeBytes, valueSize.
  rewrite len_app, len_writeVarint. lia.
Qed.

Lemma len_writeU8 (v : Z) (bw : bufio.BufferWriter) :
  len (bufio.writeU8 v bw) = len bw + 1.
Proof. unfold bufio.writeU8. rewrite len_app. reflexivity. Qed.

Lemma len_writeU32 (v : Z) (bw : bufio.BufferWriter) :
  len (bufio.writeU32 v bw) = len bw + 4.
Proof. unfold bufio.writeU32. rewrite len_app. reflexivity. Qed.

Lemma len_writeBytes (v : bytes) (bw : bufio.BufferWriter) :
  len (bufio.writeBytes v bw) = len bw + len v.
Proof. unfold bufio.writeBytes. now rewrite len_app. Qed.

(** A loop that writes and a loop that counts, step by step alike. *)
Lemma fold_written {A} (W : bufio.BufferWriter -> A -> bufio.BufferWriter)
      (S : Z -> A -> Z) (d : A -> Z) :
  (forall bw a, len (W bw a) = len bw + d a) ->
  (forall size a, S size a = size + d a) ->
  forall (l : list A) (bw : bufio.BufferWriter) (size : Z),
    len (fold_left W l bw) - len bw = fold_left S l size - size.
Proof.
  intros HW HS. induction l as [|a l IH]; intros bw size; cbn [fold_left].
  - lia.
  - specialize (IH (W bw a) (S size a)). rewrite HW, HS in *. lia.
Qed.

Section Sizes.
Context `{Collaborators}.
Hypothesis MTX_size :
  forall tx bw, exists bs,
    MTX_toWriter tx bw = bw ++ bs /\ len bs = MTX_getSize tx.
Hypothesis TX_size : forall tx, TX_getSize tx = len (TX_toRaw tx).
Hypothesis Output_size : forall o, Output_getSize o = len (Output_toRaw o).

Lemma PSBTInput_write_length (input : PSBTInput.t)
      (bw : bufio.BufferWriter) :
  len (PSBTInput.write input bw) = len bw + PSBTInput.getSize input.
Proof.
  unfold PSBTInput.write, PSBTInput.getSize.
  set (bw1 := match PSBTInput.tx input with
              | Some _ => _ | None => _ end).
  set (s1 := match PSBTInput.tx input with
             | Some _ => _ | None => _ end).
  assert (H1 : len bw1 = len bw + s1).
  { subst bw1 s1.
    destruct (PSBTInput.tx input) as [tx|];
      [|destruct (PSBTInput.output input) as [o|]].
    - rewrite len_writeVarBytes, len_writeU8, len_writeVarint.
      rewrite TX_size. unfold valueSize.
      change (bufio.sizeVarint 1) with 1. lia.
    - rewrite len_writeVarBytes, len_writeU8, len_writeVarint.
      rewrite Output_size. unfold valueSize.
      change (bufio.sizeVarint 1) with 1. lia.
    - lia. }
  clearbody bw1 s1.
  destruct (negb (truthy (PSBTInput.script input))
            && negb (truthy (PSBTInput.witnessStack input)));
    [|exact H1].
  match goal with
  | |- len (if _ then _ (_ (_ (_ (fold_left ?W ?l _)))) else _)
       = _ + (if _ then fold_left ?S _ _ + _ + _ else _) =>
      pose proof (fold_written W S
        (fun sigpair : bytes * bytes =>
           (bufio.sizeVarint (1 + len (fst sigpair)) + (1 + len (fst sigpair)))
           + valueSize (snd sigpair))) as Hf
  end.
  specialize (Hf ltac:(intros; cbv beta;
                       rewrite len_writeVarBytes, len_writeBytes,
                         len_writeU8, len_writeVarint;
                       rewrite (Z.add_comm (len _) 1); lia)
                 ltac:(intros; cbv beta; unfold valueSize; lia)
                 (BufferMap.values (PSBTInput.signatures input)) bw1 s1).
  destruct (0 <? PSBTInput.hashType input).
  - rewrite len_writeU32, len_writeVarint, len_writeU8, len_writeVarint.
    change (bufio.sizeVarint 1) with 1. change (bufio.sizeVarint 4) with 1.
    lia.
  - lia.
Qed.





End Sizes.





Section SizesSummary.
Context `{Collaborators}.

End SizesSummary.

(** ** The reference collaborators write what they count *)

Lemma appends_compose (f g : bufio.BufferWriter -> bufio.BufferWriter) :
  appends f -> appends g -> appends (fun bw => g (f bw)).
Proof.
  intros Hf Hg bw. rewrite (Hg (f bw)), (Hf bw), (Hg (f [])).
  now rewrite app_assoc.
Qed.

Lemma appends_fold {A} (W : bufio.BufferWriter -> A -> bufio.BufferWriter)
      (l : list A) :
  (forall a, appends (fun bw => W bw a)) -> appends (fold_left W l).
Proof.
  intros HW. induction l as [|a l IH]; intros bw; cbn [fold_left].
  - now rewrite app_nil_r.
  - rewrite (IH (W bw a)), (IH (W [] a)), (HW a bw). now rewrite app_assoc.
Qed.

Lemma appends_id : appends (fun bw => bw).
Proof. intros bw. now rewrite app_nil_r. Qed.

Lemma appends_app (bs : bytes) : appends (fun bw => bw ++ bs).
Proof. intros bw. reflexivity. Qed.

Lemma appends_writeVarint (num : Z) : appends (bufio.writeVarint num).
Proof. intros bw. apply writeVarint_app. Qed.

Lemma appends_writeVarBytes (value : bytes) :
  appends (bufio.writeVarBytes value).
Proof. intros bw. apply writeVarBytes_app. Qed.

Lemma appends_writeInput (input : Input.t) :
  appends (Reference.writeInput input).
Proof.
  unfold Reference.writeInput.
  apply (appends_compose
           (fun bw => bufio.writeVarBytes _ (bufio.writeBytes _ bw))
           (bufio.writeU32 _)); [|apply appends_app].
  apply (appends_compose (bufio.writeBytes _) (bufio.writeVarBytes _));
    [apply appends_app|apply appends_writeVarBytes].
Qed.

Lemma appends_writeOutput (output : Output.t) :
  appends (Reference.writeOutput output).
Proof.
  unfold Reference.writeOutput.
  apply (appends_compose (bufio.writeU64 _) (bufio.writeVarBytes _));
    [apply appends_app|apply appends_writeVarBytes].
Qed.

Lemma appends_writeWitness (w : Witness.t) :
  appends (Reference.writeWitness w).
Proof.
  unfold Reference.writeWitness.
  apply (appends_compose (bufio.writeVarint _)
           (fold_left (fun bw item => bufio.writeVarBytes item bw) _));
    [apply appends_writeVarint|].
  apply appends_fold. intros a. apply appends_writeVarBytes.
Qed.

Lemma appends_writeTX (tx : TX.t) : appends (Reference.writeTX tx).
Proof.
  unfold Reference.writeTX.
  repeat match goal with
         | |- appends (fun bw => let x := @?f bw in @?g bw x) =>
             change (appends (fun bw => g bw (f bw))); cbv beta
         end.
  apply (appends_compose _ (bufio.writeU32 _)); [|apply appends_app].
  apply (appends_compose _
           (fun bw => if Reference.hasWitness tx
                      then fold_left
                             (fun bw i =>
                                Reference.writeWitness (Input.witness i) bw)
                             (TX.inputs tx) bw
                      else bw)).
  2:{ destruct (Reference.hasWitness tx); [|apply appends_id].
      apply appends_fold. intros a. apply appends_writeWitness. }
  apply (appends_compose _
           (fold_left (fun bw o => Reference.writeOutput o bw) _)).
  2:{ apply appends_fold. intros a. apply appends_writeOutput. }
  apply (appends_compose _ (bufio.writeVarint _));
    [|apply appends_writeVarint].
  apply (appends_compose _
           (fold_left (fun bw i => Reference.writeInput i bw) _)).
  2:{ apply appends_fold. intros a. apply appends_writeInput. }
  apply (appends_compose _ (bufio.writeVarint _));
    [|apply appends_writeVarint].
  apply (appends_compose (bufio.writeU32 _)
           (fun bw => if Reference.hasWitness tx
                      then bufio.writeU8 1 (bufio.writeU8 0 bw) else bw));
    [apply appends_app|].
  destruct (Reference.hasWitness tx); [|apply appends_id].
  apply (appends_compose (bufio.writeU8 0) (bufio.writeU8 1));
    apply appends_app.
Qed.



(** ** Bytes behind the last input scope *)

Section Trailing.
Context `{Collaborators}.

Lemma PSBT_readGlobal_separator (fuel : nat) (self : PSBT.t)
      (br : bufio.BufferReader) :
  PSBT.readGlobal (S fuel) self (x00 :: br) = Ok (self, br).
Proof.
  cbn [PSBT.readGlobal]. unfold bufio.left.
  replace (len (x00 :: br) =? 0) with false
    by (symmetry; apply Z.eqb_neq; unfold len; cbn [List.length]; lia).
  change (x00 :: br) with (bufio.writeVarBytes [] [] ++ br).
  rewrite readVarBytes_written by (vm_compute; discriminate).
  reflexivity.
Qed.

Lemma PSBT_readInputs_separators (count : nat) :
  forall (inputs : list PSBTInput.t) (br : bufio.BufferReader),
    PSBT.readInputs count inputs (repeat x00 count ++ br)
    = Ok (inputs ++ repeat PSBTInput.new count, br).
Proof.
  induction count as [|count IH]; intros inputs br;
    cbn [PSBT.readInputs repeat app].
  - now rewrite app_nil_r.
  - unfold PSBTInput.fromReader. rewrite PSBTInput_read_separator.
    cbn [bind]. rewrite IH, <- app_assoc. reflexivity.
Qed.

(** X21. A PSBT made of the transaction record and one empty scope per input
    decodes, and it decodes to the same value whatever bytes follow the last
    input scope: they are never read. No encoder can give back both byte
    strings. *)
Theorem PSBT_read_ignores_trailing_bytes (rawTX extra : bytes) (tx : TX.t) :
  len rawTX <= bufio.MAX_SAFE_INTEGER ->
  MTX_fromRaw rawTX = Ok tx ->
  PSBT.isTransactionUnsigned tx = true ->
  PSBT.fromRaw
    (envelope ++ record [x00] rawTX ++ [x00]
     ++ repeat x00 (List.length (TX.inputs tx)) ++ extra)
  = Ok (PSBT.mk (repeat PSBTInput.new (List.length (TX.inputs tx))) []
                BufferMap.empty (Some tx)).
Proof.
  intros Hl Hp Hu. unfold PSBT.fromRaw. rewrite PSBT_read_envelope.
  rewrite record_app.
  rewrite PSBT_readGlobal_record by (vm_compute; congruence).
  rewrite (PSBT_readField_UNSIGNED_TX PSBT.new [] rawTX tx)
    by (assumption || reflexivity).
  rewrite Hu. cbn [bind app].
  match goal with
  | |- context [PSBT.readGlobal ?f ?s (x00 :: ?r)] =>
      rewrite (PSBT_readGlobal_fuel f (S (List.length (x00 :: r))) s
                 (x00 :: r))
  end.
  - rewrite PSBT_readGlobal_separator. cbn [bind PSBT.set_mtx PSBT.mtx].
    cbn [PSBT.new PSBT.inputs]. rewrite PSBT_readInputs_separators.
    reflexivity.
  - rewrite length_app.
    pose proof (writeVarBytes_nonempty [x00]
                  (bufio.writeVarBytes rawTX [])) as Hne.
    rewrite !length_app in *. cbn [List.length] in *. lia.
  - lia.
Qed.

End Trailing.

Lemma PSBT_read_ignores_trailing_bytes_witness :
  @MTX_fromRaw Reference.collaborators Examples.rawTX = Ok Examples.tx
  /\ PSBT.isTransactionUnsigned Examples.tx = true
  /\ @PSBT.fromRaw Reference.collaborators
       (envelope ++ record [x00] Examples.rawTX ++ [x00]
        ++ repeat x00 (List.length (TX.inputs Examples.tx)) ++ [x00])
     = Ok Examples.decoded.
Proof.
  split; [vm_compute; reflexivity|]. split; [reflexivity|].
  apply (@PSBT_read_ignores_trailing_bytes Reference.collaborators
           Examples.rawTX [x00] Examples.tx);
    [vm_compute; congruence|vm_compute; reflexivity|reflexivity].
Defined.

(** ** Fuel of the path reader *)

Lemma Path_readIndexes_fuel (fuel : nat) :
  forall (indexes : list Z) (br : bufio.BufferReader),
    (List.length br < fuel)%nat ->
    Path.readIndexes fuel indexes br <> Err FuelExhausted.
Proof.
  induction fuel as [|fuel IH]; intros indexes br Hf; [inversion Hf|].
  cbn [Path.readIndexes].
  destruct (bufio.left br =? 0); [discriminate|].
  destruct (bufio.readU32 br) as [[index br']|e] eqn:E; cbn [bind].
  - apply readU32_shrinks in E. apply IH. lia.
  - apply readU32_error in E. subst e. discriminate.
Qed.

(** [Path.fromRaw] never runs out of fuel: it returns a path or a
    [FrameError]. *)
Lemma Path_fromRaw_total (data : bytes) :
  (exists path, Path.fromRaw data = Ok path)
  \/ Path.fromRaw data = Err FrameError.
Proof.
  unfold Path.fromRaw, Path.read.
  destruct (bufio.readU32BE data) as [[f br1]|e] eqn:E1; cbn [bind].
  - pose proof (Path_readIndexes_fuel (S (List.length br1)) [] br1
                  ltac:(lia)) as Hf.
    destruct (Path.readIndexes (S (List.length br1)) [] br1)
      as [[indexes br2]|e] eqn:E2; cbn [bind]; [left; eauto|].
    right. f_equal.
    clear E1. revert E2 Hf. generalize (S (List.length br1)).
    generalize (@nil Z). revert br1.
    intros br1 acc n. revert acc br1.
    induction n as [|n IH]; intros acc br1 E2 Hf; cbn [Path.readIndexes] in *.
    + congruence.
    + destruct (bufio.left br1 =? 0); [discriminate|].
      destruct (bufio.readU32 br1) as [[index br']|e'] eqn:E;
        cbn [bind] in *.
      * eapply IH; eassumption.
      * apply readU32_error in E. congruence.
  - right. f_equal. unfold bufio.readU32BE in E1.
    destruct (bufio.readBytes 4 data) as [[bs br]|e'] eqn:E; cbn [bind] in E1;
      [discriminate|].
    apply readBytes_error in E. congruence.
Qed.

Section Unsigned.
Context `{Collaborators}.

Lemma PSBT_readField_unsigned (self : PSBT.t) (key : bytes)
      (br : bufio.BufferReader) self' br' :
  PSBT.readField self key br = Ok (self', br') ->
  match PSBT.mtx self with
  | Some tx => PSBT.isTransactionUnsigned tx = true
  | None => True
  end ->
  match PSBT.mtx self' with
  | Some tx => PSBT.isTransactionUnsigned tx = true
  | None => True
  end.
Proof.
  unfold PSBT.readField. intros E Hinv.
  destruct (_ =? _).
  - apply bind_Ok_inv in E as (? & _ & E).
    apply bind_Ok_inv in E as ([raw br1] & _ & E).
    apply bind_Ok_inv in E as (tx & _ & E).
    apply bind_Ok_inv in E as (? & Ha & E).
    injection E as <- <-. cbn [PSBT.set_mtx PSBT.mtx].
    destruct (PSBT.isTransactionUnsigned tx); [reflexivity|discriminate].
  - apply bind_Ok_inv in E as (? & _ & E).
    apply bind_Ok_inv in E as ([raw br1] & _ & E).
    injection E as <- <-. exact Hinv.
Qed.

Lemma PSBT_readGlobal_unsigned (fuel : nat) :
  forall (self : PSBT.t) (br : bufio.BufferReader) self' br',
    PSBT.readGlobal fuel self br = Ok (self', br') ->
    match PSBT.mtx self with
    | Some tx => PSBT.isTransactionUnsigned tx = true
    | None => True
    end ->
    match PSBT.mtx self' with
    | Some tx => PSBT.isTransactionUnsigned tx = true
    | None => True
    end.
Proof.
  induction fuel as [|fuel IH]; intros self br self' br' E Hinv;
    [discriminate|].
  cbn [PSBT.readGlobal] in E.
  destruct (bufio.left br =? 0); [injection E as <- <-; exact Hinv|].
  apply bind_Ok_inv in E as ([key br1] & _ & E).
  destruct (len key =? 0); [injection E as <- <-; exact Hinv|].
  apply bind_Ok_inv in E as ([self1 br2] & Ef & E).
  eapply IH; [exact E|]. eapply PSBT_readField_unsigned; eassumption.
Qed.

(** X20. No PSBT comes out of the decoder with a transaction that carries a
    script or a witness on an input. *)
Theorem PSBT_decoded_transaction_unsigned (data : bytes) (psbt : PSBT.t) :
  PSBT.fromRaw data = Ok psbt ->
  exists tx,
    PSBT.mtx psbt = Some tx
    /\ PSBT.isTransactionUnsigned tx = true
    /\ ~ Exists signedInput (TX.inputs tx).
Proof.
  unfold PSBT.fromRaw, PSBT.read. intros E.
  apply bind_Ok_inv in E as ([p br] & E & Ep). injection Ep as ->.
  apply bind_Ok_inv in E as ([magic br1] & _ & E).
  apply bind_Ok_inv in E as ([sep br2] & _ & E).
  apply bind_Ok_inv in E as (? & _ & E).
  apply bind_Ok_inv in E as ([self br3] & Eg & E).
  apply PSBT_readGlobal_unsigned in Eg; [|exact I].
  destruct (PSBT.mtx self) as [tx|] eqn:Em; [|discriminate].
  apply bind_Ok_inv in E as ([inputs br4] & _ & E).
  injection E as <- _. exists tx. cbn [PSBT.set_inputs PSBT.mtx].
  split; [exact Em|]. split; [exact Eg|].
  intros Hs. apply allInputsUnsigned_false_iff in Hs.
  unfold PSBT.isTransactionUnsigned in Eg. congruence.
Qed.
End Unsigned.

(** A PSBT that stops behind the transaction record, without any
    terminator, is accepted too: a scope also ends where the data ends. *)
Lemma PSBT_read_without_terminators :
  @PSBT.fromRaw Reference.collaborators
    (envelope ++ record [x00] Examples.rawTX)
  = Ok Examples.decoded.
Proof. vm_compute. reflexivity. Qed.

(** ** The statements at concrete data *)

(** Both UTXO kinds at once are not sane; a witness UTXO alone is. *)
Lemma PSBTInput_sanity_examples :
  PSBTInput.isSane
    (PSBTInput.set_output (PSBTInput.set_tx PSBTInput.new Examples.tx)
       (Output.mk 1000 (Script.mk [x51]))) = false
  /\ PSBTInput.isSane
       (PSBTInput.set_output PSBTInput.new (Output.mk 1000 (Script.mk [x51])))
     = true.
Proof. split; reflexivity. Qed.


Lemma PSBTInput_duplicate_key_accepted_witness :
  len Examples.K1 = 33
  /\ Reference.secp256k1_publicKeyVerify Examples.K1 = true
  /\ @PSBTInput.fromReader Reference.collaborators
       (record (x02 :: Examples.K1) Examples.sig1
        ++ record (x02 :: Examples.K1) Examples.sig2 ++ [x00])
     = Ok (PSBTInput.set_signatures PSBTInput.new
             [(Reference.digest20 Examples.K1, (Examples.K1, Examples.sig2))],
           []).
Proof.
  split; [reflexivity|]. split; [vm_compute; reflexivity|].
  apply (@PSBTInput_duplicate_key_accepted Reference.collaborators
           PSBTInput.new Examples.K1 Examples.sig1 Examples.sig2
           (Path.toRaw (Path.mk Examples.fingerPrint Examples.indexes))
           (Path.toRaw (Path.mk Examples.fingerPrint [1; 7])) []
           (Path.mk Examples.fingerPrint Examples.indexes)
           (Path.mk Examples.fingerPrint [1; 7]));
    try (left; reflexivity); try (vm_compute; reflexivity);
    vm_compute; congruence.
Defined.

Lemma PSBT_signed_transaction_refused_witness :
  @MTX_fromRaw Reference.collaborators Examples.rawTXsigned
  = Ok Examples.txSigned
  /\ Exists signedInput (TX.inputs Examples.txSigned)
  /\ @PSBT.fromRaw Reference.collaborators
       (envelope ++ record [x00] Examples.rawTXsigned ++ [x00; x00; x00])
     = Err InvalidFieldCombination.
Proof.
  assert (Hs : Exists signedInput (TX.inputs Examples.txSigned))
    by (apply Exists_cons_hd; left; discriminate).
  split; [vm_compute; reflexivity|]. split; [exact Hs|].
  apply (@PSBT_signed_transaction_refused Reference.collaborators
           [] Examples.rawTXsigned [x00; x00; x00] Examples.txSigned);
    try (vm_compute; reflexivity); try exact Hs; vm_compute; congruence.
Defined.

Lemma PSBT_read_record_counts_witness :
  @PSBT.fromRaw Reference.collaborators Examples.psbt = Ok Examples.decoded
  /\ exists tx,
       PSBT.mtx Examples.decoded = Some tx
       /\ List.length (PSBT.inputs Examples.decoded)
          = List.length (TX.inputs tx)
       /\ PSBT.outputs Examples.decoded = [].
Proof.
  assert (Hd : @PSBT.fromRaw Reference.collaborators Examples.psbt
               = Ok Examples.decoded) by (vm_compute; reflexivity).
  split; [exact Hd|].
  exact (@PSBT_read_record_counts Reference.collaborators
           Examples.psbt Examples.decoded Hd).
Defined.

(** The transaction of [Examples.psbt] has one output; the decoded PSBT has
    no output record, and the byte of the output scope is still unread when
    [read] returns. *)
Lemma PSBT_read_output_scope_unread :
  @PSBT.read Reference.collaborators PSBT.new Examples.psbt
  = Ok (Examples.decoded, [x00])
  /\ List.length (TX.outputs Examples.tx) = 1%nat
  /\ PSBT.outputs Examples.decoded = [].
Proof. repeat split; vm_compute; reflexivity. Qed.

(** Evaluation for C1.  [Examples.psbt] decodes, and what [write] makes of
    the decoded value is one byte shorter: the output scope is gone.  The
    shorter byte string decodes to the same value. *)
Theorem PSBT_roundtrip_loses_output_scope :
  @PSBT.fromRaw Reference.collaborators Examples.psbt = Ok Examples.decoded
  /\ @PSBT.written Reference.collaborators Examples.decoded
     = Ok Examples.psbtShort
  /\ Examples.psbt = Examples.psbtShort ++ [x00]
  /\ Examples.psbtShort <> Examples.psbt
  /\ @PSBT.fromRaw Reference.collaborators Examples.psbtShort
     = Ok Examples.decoded.
Proof.
  repeat split; try (vm_compute; reflexivity).
  intros E. apply (f_equal (@List.length byte)) in E.
  vm_compute in E. discriminate E.
Qed.

(** A redeem script of an input scope is decoded and kept, and [write]
    leaves it out: the record is gone from the encoding. *)
Lemma PSBT_roundtrip_loses_redeem_script :
  @PSBT.fromRaw Reference.collaborators Examples.psbtRedeem
  = Ok Examples.decodedRedeem
  /\ @PSBT.written Reference.collaborators Examples.decodedRedeem
     = Ok Examples.psbtShort.
Proof. split; vm_compute; reflexivity. Qed.

Lemma PSBT_merge_copies_nothing_witness :
  List.length (PSBT.inputs Examples.A) = List.length (PSBT.inputs Examples.B)
  /\ List.length (PSBT.outputs Examples.A)
     = List.length (PSBT.outputs Examples.B)
  /\ PSBT.merge Examples.A Examples.B = Ok Examples.A.
Proof.
  split; [reflexivity|]. split; [reflexivity|].
  destruct (PSBT_merge_copies_nothing Examples.A Examples.B eq_refl eq_refl)
    as [[_ E]|[E _]].
  - exact E.
  - exfalso. apply E. reflexivity.
Defined.

(** After [A.merge(B)] the first input of [A] holds the signature of [K1]
    and none of [K2]. *)
Lemma PSBT_merge_example :
  exists input,
    option_map PSBT.inputs
      (match PSBT.merge Examples.A Examples.B with
       | Ok a => Some a
       | Err _ => None
       end) = Some [input]
    /\ BufferMap.get (PSBTInput.signatures input)
         (Reference.digest20 Examples.K1)
       = Some (Examples.K1, Examples.sig1)
    /\ BufferMap.get (PSBTInput.signatures input)
         (Reference.digest20 Examples.K2) = None.
Proof. eexists. repeat split; vm_compute; reflexivity. Qed.


(** Evaluation for C10.  [Examples.psbtUnknown] decodes to a PSBT with one
    unknown global record whose key has two bytes; [getSize] counts one byte
    for the key where [write] writes two, and returns 74 for the 75 bytes
    written. *)
Theorem PSBT_getSize_undercounts_unknown :
  @PSBT.fromRaw Reference.collaborators Examples.psbtUnknown
  = Ok Examples.decodedUnknown
  /\ @PSBT.written Reference.collaborators Examples.decodedUnknown
     = Ok Examples.psbtUnknown
  /\ len Examples.psbtUnknown = 75
  /\ exists size,
       @PSBT.getSize Reference.collaborators Examples.decodedUnknown = Ok size
       /\ (size == inject_Z 74)%Q.
Proof.
  repeat split; try (vm_compute; reflexivity).
  eexists. split; vm_compute; reflexivity.
Qed.

(** * Further properties of the decoder and the encoder *)

(** ** BufferMap: fresh keys and kept properties *)

Lemma BufferMap_get_fresh {V} (m : BufferMap.t V) (key : bytes) :
  ~ In key (map fst m) -> BufferMap.get m key = None.
Proof.
  induction m as [|[k v] m IH]; cbn [BufferMap.get map fst In];
    [reflexivity|].
  intros Hn. destruct (bytes_eqb k key) eqn:E.
  - apply bytes_eqb_eq in E. exfalso. auto.
  - apply IH. auto.
Qed.

Lemma BufferMap_has_fresh {V} (m : BufferMap.t V) (key : bytes) :
  ~ In key (map fst m) -> BufferMap.has m key = false.
Proof.
  intros Hn. unfold BufferMap.has. now rewrite BufferMap_get_fresh.
Qed.

Lemma BufferMap_has_In {V} (m : BufferMap.t V) (key : bytes) :
  BufferMap.has m key = true <-> In key (map fst m).
Proof.
  unfold BufferMap.has.
  induction m as [|[k v] m IH]; cbn [BufferMap.get map fst In].
  - split; [discriminate|tauto].
  - destruct (bytes_eqb k key) eqn:E.
    + apply bytes_eqb_eq in E. split; auto.
    + rewrite IH. split; [auto|]. intros [Hk|Hi]; [|exact Hi].
      apply bytes_eqb_eq in Hk. congruence.
Qed.

Lemma BufferMap_set_fresh {V} (m : BufferMap.t V) (key : bytes) (v : V) :
  ~ In key (map fst m) -> BufferMap.set m key v = m ++ [(key, v)].
Proof.
  induction m as [|[k w] m IH]; cbn [BufferMap.set map fst In app];
    [reflexivity|].
  intros Hn. destruct (bytes_eqb k key) eqn:E.
  - apply bytes_eqb_eq in E. exfalso. auto.
  - rewrite IH by auto. reflexivity.
Qed.

(** [set] keeps the keys: the same keys in the same order when the key is
    there, one more at the end when it is not. *)
Lemma BufferMap_set_keys {V} (m : BufferMap.t V) (key : bytes) (v : V) :
  map fst (BufferMap.set m key v)
  = if BufferMap.has m key then map fst m else map fst m ++ [key].
Proof.
  unfold BufferMap.has.
  induction m as [|[k w] m IH]; cbn [BufferMap.set BufferMap.get map fst app];
    [reflexivity|].
  destruct (bytes_eqb k key) eqn:E; cbn [map fst]; [reflexivity|].
  rewrite IH. destruct (BufferMap.get m key); reflexivity.
Qed.

Lemma BufferMap_set_NoDup {V} (m : BufferMap.t V) (key : bytes) (v : V) :
  NoDup (map fst m) -> NoDup (map fst (BufferMap.set m key v)).
Proof.
  intros Hn. rewrite BufferMap_set_keys.
  destruct (BufferMap.has m key) eqn:E; [exact Hn|].
  apply NoDup_app; [exact Hn|repeat constructor; intros []|].
  intros k Hk [<-|[]]. apply BufferMap_has_In in Hk. congruence.
Qed.

Lemma BufferMap_set_Forall {V} (P : bytes * V -> Prop) (m : BufferMap.t V)
      (key : bytes) (v : V) :
  Forall P m -> P (key, v) -> Forall P (BufferMap.set m key v).
Proof.
  intros Hm Hp. induction m as [|[k w] m IH]; cbn [BufferMap.set].
  - auto.
  - inversion Hm as [|? ? Hk Hm']; subst.
    destruct (bytes_eqb k key) eqn:E.
    + apply bytes_eqb_eq in E. subst k. auto.
    + auto.
Qed.

(** ** Path: what decodes *)

Lemma be_bytes_be_value (bs : bytes) :
  bufio.be_bytes (List.length bs) (bufio.be_value bs) = bs.
Proof.
  unfold bufio.be_bytes, bufio.be_value.
  rewrite <- (length_rev bs), le_bytes_le_value. apply rev_involutive.
Qed.

Lemma readU32_inv (br : bufio.BufferReader) (v : Z) br' :
  bufio.readU32 br = Ok (v, br') ->
  br = bufio.le_bytes 4 v ++ br' /\ uint32 v.
Proof.
  unfold bufio.readU32. intros E.
  apply bind_Ok_inv in E as ([bs br1] & Er & E). injection E as <- <-.
  apply readBytes_length in Er as [Hl ->].
  assert (Hn : List.length bs = 4%nat) by (unfold len in Hl; lia).
  split.
  - rewrite <- Hn, le_bytes_le_value. reflexivity.
  - pose proof (le_value_range bs) as Hr. rewrite Hl in Hr.
    unfold uint32. change (256 ^ 4) with (2 ^ 32) in Hr. exact Hr.
Qed.

Lemma readU32BE_inv (br : bufio.BufferReader) (v : Z) br' :
  bufio.readU32BE br = Ok (v, br') ->
  br = bufio.be_bytes 4 v ++ br' /\ uint32 v.
Proof.
  unfold bufio.readU32BE. intros E.
  apply bind_Ok_inv in E as ([bs br1] & Er & E). injection E as <- <-.
  apply readBytes_length in Er as [Hl ->].
  assert (Hn : List.length bs = 4%nat) by (unfold len in Hl; lia).
  split.
  - rewrite <- Hn, be_bytes_be_value. reflexivity.
  - unfold bufio.be_value. pose proof (le_value_range (rev bs)) as Hr.
    unfold len in Hr. rewrite length_rev, Hn in Hr.
    unfold uint32. change (256 ^ Z.of_nat 4) with (2 ^ 32) in Hr. exact Hr.
Qed.

(** What the loop of [Path.read] returns: the reader is exhausted, and the
    indexes read are uint32 values whose little-endian bytes are the data. *)
Lemma Path_readIndexes_inv (fuel : nat) :
  forall (acc : list Z) (br : bufio.BufferReader) xs br',
    Path.readIndexes fuel acc br = Ok (xs, br') ->
    br' = []
    /\ exists ys, xs = acc ++ ys
                  /\ br = List.concat (map (bufio.le_bytes 4) ys)
                  /\ Forall uint32 ys.
Proof.
  induction fuel as [|fuel IH]; intros acc br xs br' E; [discriminate|].
  cbn [Path.readIndexes] in E.
  destruct (bufio.left br =? 0) eqn:El.
  - injection E as <- <-. apply len_zero_iff in El. subst br.
    split; [reflexivity|]. exists []. rewrite app_nil_r. auto.
  - apply bind_Ok_inv in E as ([index br1] & Er & E).
    apply readU32_inv in Er as [-> Hu]. apply IH in E as (-> & ys & -> & Hb & Hys).
    split; [reflexivity|]. exists (index :: ys). rewrite <- app_assoc.
    cbn [map List.concat app]. rewrite <- Hb. auto.
Qed.

Lemma Path_fromRaw_inv (data : bytes) (path : Path.t) :
  Path.fromRaw data = Ok path ->
  data = bufio.be_bytes 4 (Path.masterFingerPrint path)
         ++ List.concat (map (bufio.le_bytes 4) (Path.indexes path))
  /\ uint32 (Path.masterFingerPrint path)
  /\ Forall uint32 (Path.indexes path).
Proof.
  unfold Path.fromRaw, Path.read. intros E.
  apply bind_Ok_inv in E as ([p br] & E & Ep). injection Ep as <-.
  apply bind_Ok_inv in E as ([f br1] & Ef & E).
  apply bind_Ok_inv in E as ([xs br2] & Ex & E). injection E as <- _.
  apply readU32BE_inv in Ef as [-> Hf].
  apply Path_readIndexes_inv in Ex as (_ & ys & -> & -> & Hys).
  cbn [Path.masterFingerPrint Path.indexes app]. auto.
Qed.

(** X1.  Encoding what decoded gives the data back. *)
Theorem Path_toRaw_fromRaw (data : bytes) (path : Path.t) :
  Path.fromRaw data = Ok path ->
  Path.toRaw path = data
  /\ uint32 (Path.masterFingerPrint path)
  /\ Forall uint32 (Path.indexes path).
Proof.
  intros E. apply Path_fromRaw_inv in E as (Hd & Hf & Hx).
  split; [|auto]. unfold Path.toRaw, Path.write.
  rewrite Path_write_indexes. symmetry. exact Hd.
Qed.

Lemma concat_le_bytes_length (ys : list Z) :
  List.length (List.concat (map (bufio.le_bytes 4) ys))
  = (4 * List.length ys)%nat.
Proof.
  induction ys as [|y ys IH]; cbn [map List.concat List.length];
    [reflexivity|].
  rewrite length_app, le_bytes_length, IH. lia.
Qed.

Lemma Path_readIndexes_multiple (k : nat) :
  forall (fuel : nat) (acc : list Z) (br : bufio.BufferReader),
    List.length br = (4 * k)%nat -> (List.length br < fuel)%nat ->
    exists xs, Path.readIndexes fuel acc br = Ok (xs, []).
Proof.
  induction k as [|k IH]; intros fuel acc br Hl Hf.
  - destruct fuel as [|fuel]; [inversion Hf|].
    destruct br; [|discriminate]. exists acc. reflexivity.
  - destruct fuel as [|fuel]; [inversion Hf|].
    cbn [Path.readIndexes]. unfold bufio.left.
    replace (len br =? 0) with false
      by (symmetry; apply Z.eqb_neq; unfold len; lia).
    rewrite <- (firstn_skipn 4 br).
    unfold bufio.readU32.
    rewrite readBytes_exact
      by (unfold len; rewrite length_firstn; lia).
    cbn [bind]. apply IH; rewrite ?length_skipn; lia.
Qed.

(** X2.  The binary form must be four bytes of fingerprint and four bytes per
    index; any other length is a FrameError. *)
Theorem Path_fromRaw_length (data : bytes) :
  ((exists k : nat, List.length data = (4 + 4 * k)%nat) ->
   exists path, Path.fromRaw data = Ok path
                /\ List.length data
                   = (4 + 4 * List.length (Path.indexes path))%nat)
  /\ ((forall k : nat, List.length data <> (4 + 4 * k)%nat) ->
      Path.fromRaw data = Err FrameError).
Proof.
  split.
  - intros [k Hk].
    assert (E : exists path, Path.fromRaw data = Ok path).
    { unfold Path.fromRaw, Path.read.
      rewrite <- (firstn_skipn 4 data). unfold bufio.readU32BE.
      rewrite readBytes_exact by (unfold len; rewrite length_firstn; lia).
      cbn [bind].
      destruct (Path_readIndexes_multiple k
                  (S (List.length (skipn 4 data))) [] (skipn 4 data))
        as [xs Hx]; [rewrite length_skipn; lia|lia|].
      rewrite Hx. cbn [bind]. eauto. }
    destruct E as [path E]. exists path. split; [exact E|].
    apply Path_fromRaw_inv in E as (Hd & _ & _).
    rewrite Hd at 1. rewrite length_app, be_bytes_length.
    now rewrite concat_le_bytes_length.
  - intros Hn. destruct (Path_fromRaw_total data) as [[path E]|E];
      [|exact E].
    exfalso. apply Path_fromRaw_inv in E as (Hd & _ & _).
    apply (Hn (List.length (Path.indexes path))).
    rewrite Hd at 1. rewrite length_app, be_bytes_length.
    now rewrite concat_le_bytes_length.
Qed.

Lemma records_cons (entry : bytes * bytes) (entries : list (bytes * bytes))
      (rest : bytes) :
  records (entry :: entries) ++ rest
  = record (fst entry) (snd entry) ++ records entries ++ rest.
Proof. unfold records. cbn [map List.concat]. now rewrite <- app_assoc. Qed.

Lemma keyType_nonempty (key : bytes) (limit : Z) :
  0 <= limit -> limit < keyType key -> key <> [].
Proof. intros Hl Hk ->. cbn in Hk. lia. Qed.

Section InputRecords.
Context `{Collaborators}.

(** ** Unknown records of an input scope *)

Lemma readField_unknown (self : PSBTInput.t) (key value : bytes)
      (br : bufio.BufferReader) :
  8 < keyType key ->
  BufferMap.has (PSBTInput.unknown self) key = false ->
  len value <= bufio.MAX_SAFE_INTEGER ->
  PSBTInput.readField self key (bufio.writeVarBytes value [] ++ br)
  = Ok (PSBTInput.set_unknown self
          (BufferMap.set (PSBTInput.unknown self) key value), br).
Proof.
  unfold keyType. intros Ht Hh Hl. unfold PSBTInput.readField.
  unfold common.inputTypes.NON_WITNESS_UTXO, common.inputTypes.WITNESS_UTXO,
    common.inputTypes.PARTIAL_SIG, common.inputTypes.SIGHASH,
    common.inputTypes.REDEEMSCRIPT, common.inputTypes.WITNESSSCRIPT,
    common.inputTypes.BIP32_DERIVATION, common.inputTypes.SCRIPTSIG,
    common.inputTypes.SCRIPTWITNESS.
  repeat match goal with
         | |- context [u8 (nth 0 key x00) =? ?b] =>
             replace (u8 (nth 0 key x00) =? b) with false
               by (symmetry; apply Z.eqb_neq; lia)
         end.
  rewrite Hh. cbn [negb assert bind].
  rewrite readVarBytes_written by exact Hl. reflexivity.
Qed.

Lemma PSBTInput_read_unknown_records (entries : list (bytes * bytes)) :
  forall (self : PSBTInput.t) (rest : bytes),
    Forall (unknownEntry 8) entries ->
    Forall framedEntry entries ->
    NoDup (map fst (PSBTInput.unknown self ++ entries)) ->
    PSBTInput.read self (records entries ++ rest)
    = PSBTInput.read
        (PSBTInput.set_unknown self (PSBTInput.unknown self ++ entries)) rest.
Proof.
  induction entries as [|[key value] entries IH]; intros self rest Hu Hf Hn.
  - rewrite app_nil_r. destruct self; reflexivity.
  - inversion Hu as [|? ? Hk Hu']; subst.
    inversion Hf as [|? ? [Hlk Hlv] Hf']; subst.
    cbn [fst snd] in *. unfold unknownEntry in Hk. cbn [fst] in Hk.
    rewrite records_cons. cbn [fst snd].
    rewrite record_app, PSBTInput_read_record;
      [|eapply keyType_nonempty; [|exact Hk]; lia|exact Hlk].
    assert (Hfresh : ~ In key (map fst (PSBTInput.unknown self))).
    { rewrite map_app in Hn. apply NoDup_remove_2 in Hn.
      intros Hi. apply Hn. apply in_or_app. now left. }
    rewrite readField_unknown
      by (auto using BufferMap_has_fresh).
    cbn [bind]. rewrite BufferMap_set_fresh by exact Hfresh.
    rewrite IH.
    + destruct self. cbn [PSBTInput.set_unknown PSBTInput.unknown
                            PSBTInput.tx PSBTInput.output PSBTInput.redeem
                            PSBTInput.redeemWitness PSBTInput.script
                            PSBTInput.witnessStack PSBTInput.hashType
                            PSBTInput.paths PSBTInput.signatures].
      now rewrite <- app_assoc.
    + exact Hu'.
    + exact Hf'.
    + destruct self. cbn [PSBTInput.set_unknown PSBTInput.unknown] in *.
      now rewrite <- app_assoc.
Qed.

(** X4.  An input scope made of records with field types above 8 and
    different keys decodes to an input whose unknown map holds exactly
    those records, keys and values byte for byte, in the order of the
    wire. *)
Theorem PSBTInput_unknown_records_kept (entries : list (bytes * bytes))
        (rest : bytes) :
  Forall (unknownEntry 8) entries ->
  Forall framedEntry entries ->
  NoDup (map fst entries) ->
  PSBTInput.fromReader (records entries ++ x00 :: rest)
  = Ok (PSBTInput.set_unknown PSBTInput.new entries, rest).
Proof.
  intros Hu Hf Hn. unfold PSBTInput.fromReader.
  rewrite PSBTInput_read_unknown_records by assumption.
  now rewrite PSBTInput_read_separator.
Qed.

(** ** Key material *)

(** X5.  A partial-signature record is refused with InvalidKeyMaterial when
    its key is not 34 or 66 bytes long or when the key check fails, and a
    derivation record when the key check fails, before the value is
    looked at. *)
Theorem PSBTInput_invalid_key_refused (self : PSBTInput.t) (key : bytes)
        (br : bufio.BufferReader) :
  (keyType key = common.inputTypes.PARTIAL_SIG
   /\ ((len key <> 34 /\ len key <> 66)
       \/ publicKeyVerify (skipn 1 key) = false))
  \/ (keyType key = common.inputTypes.BIP32_DERIVATION
      /\ publicKeyVerify (skipn 1 key) = false) ->
  PSBTInput.readField self key br = Err InvalidKeyMaterial.
Proof.
  unfold keyType, PSBTInput.readField.
  intros [[-> Hc]|[-> Hc]]; cbn [Z.eqb Pos.eqb].
  - destruct Hc as [[H34 H66]|Hv].
    + apply Z.eqb_neq in H34, H66.
      change (33 + 1) with 34. change (65 + 1) with 66.
      rewrite H34, H66. reflexivity.
    + rewrite Hv. destruct (_ || _); reflexivity.
  - rewrite Hc. reflexivity.
Qed.

End InputRecords.

Lemma readU32_at_uint32 (data : bytes) (v : Z) :
  bufio.readU32_at data 0 = Ok v -> uint32 v.
Proof.
  unfold bufio.readU32_at. cbn [Z.leb Z.compare assert bind Z.to_nat skipn].
  intros E. apply bind_Ok_inv in E as ([w br] & Er & E). injection E as <-.
  now apply readU32_inv in Er.
Qed.

Lemma assert_Ok_true (c : bool) (e : error) (u : unit) :
  assert c e = Ok u -> c = true.
Proof. destruct c; [reflexivity|discriminate]. Qed.

(** Unfolds a statement on an input record down to its fields. *)
Ltac input_fields self :=
  destruct self; unfold decodedInput in *;
  cbn [PSBTInput.signatures PSBTInput.paths PSBTInput.unknown
       PSBTInput.hashType PSBTInput.tx PSBTInput.output PSBTInput.redeem
       PSBTInput.redeemWitness PSBTInput.script PSBTInput.witnessStack
       PSBTInput.set_tx PSBTInput.set_output PSBTInput.set_redeem
       PSBTInput.set_redeemWitness PSBTInput.set_script
       PSBTInput.set_witnessStack PSBTInput.set_hashType
       PSBTInput.set_paths PSBTInput.set_signatures PSBTInput.set_unknown]
    in *.

Section DecodedInput.
Context `{Collaborators}.

Lemma decodedInput_new : decodedInput PSBTInput.new.
Proof.
  unfold decodedInput, PSBTInput.new, BufferMap.empty.
  cbn [PSBTInput.signatures PSBTInput.paths PSBTInput.unknown
       PSBTInput.hashType map].
  repeat (split; [constructor|]). unfold uint32. lia.
Qed.

(** Each handler keeps what holds of a decoded input. *)
Lemma PSBTInput_readField_decoded (self : PSBTInput.t) (key : bytes)
      (br : bufio.BufferReader) self' br' :
  PSBTInput.readField self key br = Ok (self', br') ->
  decodedInput self -> decodedInput self'.
Proof.
  unfold PSBTInput.readField.
  intros E Hd.
  destruct (_ =? common.inputTypes.NON_WITNESS_UTXO) eqn:T0.
  { apply bind_Ok_inv in E as (? & _ & E).
    apply bind_Ok_inv in E as ([? ?] & _ & E).
    apply bind_Ok_inv in E as (? & _ & E). injection E as <- _.
    input_fields self. tauto. }
  destruct (_ =? common.inputTypes.WITNESS_UTXO) eqn:T1.
  { apply bind_Ok_inv in E as (? & _ & E).
    apply bind_Ok_inv in E as ([? ?] & _ & E).
    apply bind_Ok_inv in E as (? & _ & E). injection E as <- _.
    input_fields self. tauto. }
  destruct (_ =? common.inputTypes.PARTIAL_SIG) eqn:T2.
  { apply bind_Ok_inv in E as (? & Hl & E).
    apply bind_Ok_inv in E as (? & Hv & E).
    apply bind_Ok_inv in E as ([signature ?] & _ & E). injection E as <- _.
    apply assert_Ok_true in Hl. apply assert_Ok_true in Hv.
    assert (Hk : len (skipn 1 key) = 33 \/ len (skipn 1 key) = 65).
    { unfold len in *. rewrite length_skipn.
      apply orb_true_iff in Hl as [Hl|Hl]; apply Z.eqb_eq in Hl; lia. }
    input_fields self.
    destruct Hd as (Hs & Hsn & Hrest).
    split; [|split; [now apply BufferMap_set_NoDup|exact Hrest]].
    apply BufferMap_set_Forall; [assumption|].
    unfold signatureEntry. cbn [fst snd]. auto. }
  destruct (_ =? common.inputTypes.SIGHASH) eqn:T3.
  { apply bind_Ok_inv in E as (? & _ & E).
    apply bind_Ok_inv in E as ([value ?] & _ & E).
    apply bind_Ok_inv in E as (v & Hv & E). injection E as <- _.
    apply readU32_at_uint32 in Hv.
    input_fields self. tauto. }
  destruct (_ =? common.inputTypes.REDEEMSCRIPT) eqn:T4.
  { apply bind_Ok_inv in E as (? & _ & E).
    apply bind_Ok_inv in E as ([? ?] & _ & E).
    apply bind_Ok_inv in E as (? & _ & E). injection E as <- _.
    input_fields self. tauto. }
  destruct (_ =? common.inputTypes.WITNESSSCRIPT) eqn:T5.
  { apply bind_Ok_inv in E as (? & _ & E).
    apply bind_Ok_inv in E as ([? ?] & _ & E).
    apply bind_Ok_inv in E as (? & _ & E). injection E as <- _.
    input_fields self. tauto. }
  destruct (_ =? common.inputTypes.BIP32_DERIVATION) eqn:T6.
  { apply bind_Ok_inv in E as (? & Hv & E).
    apply bind_Ok_inv in E as ([rawPath ?] & _ & E).
    apply bind_Ok_inv in E as (path & Hpath & E). injection E as <- _.
    apply assert_Ok_true in Hv.
    apply Path_fromRaw_inv in Hpath as (_ & Hf & Hx).
    input_fields self.
    destruct Hd as (Hs & Hsn & Hp & Hpn & Hrest).
    split; [exact Hs|]. split; [exact Hsn|].
    split; [|split; [now apply BufferMap_set_NoDup|exact Hrest]].
    apply BufferMap_set_Forall; [assumption|].
    unfold pathEntry. cbn [fst snd]. eauto. }
  destruct (_ =? common.inputTypes.SCRIPTSIG) eqn:T7.
  { apply bind_Ok_inv in E as (? & _ & E).
    apply bind_Ok_inv in E as ([? ?] & _ & E).
    apply bind_Ok_inv in E as (? & _ & E). injection E as <- _.
    input_fields self. tauto. }
  destruct (_ =? common.inputTypes.SCRIPTWITNESS) eqn:T8.
  { apply bind_Ok_inv in E as (? & _ & E).
    apply bind_Ok_inv in E as ([? ?] & _ & E).
    apply bind_Ok_inv in E as (? & _ & E). injection E as <- _.
    input_fields self. tauto. }
  apply bind_Ok_inv in E as (? & _ & E).
  apply bind_Ok_inv in E as ([value ?] & _ & E). injection E as <- _.
  assert (Ht : 8 < keyType key).
  { unfold keyType. pose proof (u8_range (nth 0 key x00)) as Hr.
    apply Z.eqb_neq in T0, T1, T2, T3, T4, T5, T6, T7, T8.
    unfold common.inputTypes.NON_WITNESS_UTXO, common.inputTypes.WITNESS_UTXO,
      common.inputTypes.PARTIAL_SIG, common.inputTypes.SIGHASH,
      common.inputTypes.REDEEMSCRIPT, common.inputTypes.WITNESSSCRIPT,
      common.inputTypes.BIP32_DERIVATION, common.inputTypes.SCRIPTSIG,
      common.inputTypes.SCRIPTWITNESS in *. lia. }
  input_fields self.
  destruct Hd as (Hs & Hsn & Hp & Hpn & Hu & Hun & Hh).
  repeat (split; [assumption|]).
  split; [|split; [now apply BufferMap_set_NoDup|exact Hh]].
  apply BufferMap_set_Forall; [assumption|exact Ht].
Qed.

Lemma PSBTInput_readLoop_decoded (fuel : nat) :
  forall (self : PSBTInput.t) (br : bufio.BufferReader) self' br',
    PSBTInput.readLoop fuel self br = Ok (self', br') ->
    decodedInput self -> decodedInput self'.
Proof.
  induction fuel as [|fuel IH]; intros self br self' br' E Hd;
    [discriminate|].
  cbn [PSBTInput.readLoop] in E.
  destruct (bufio.left br =? 0); [injection E as <- _; exact Hd|].
  apply bind_Ok_inv in E as ([key br1] & _ & E).
  destruct (len key =? 0); [injection E as <- _; exact Hd|].
  apply bind_Ok_inv in E as ([self1 br2] & Ef & E).
  eapply IH; [exact E|]. eapply PSBTInput_readField_decoded; eassumption.
Qed.

(** X6.  Whatever input record the decoder returns, its signatures are filed
    under the digest of a checked public key of 33 or 65 bytes, its
    derivation paths under the digest of a checked public key with uint32
    numbers, its unknown records have field types above 8, no map holds a
    key twice, and its sighash type is a uint32. *)
Theorem PSBTInput_fromReader_decoded (br : bufio.BufferReader)
        (input : PSBTInput.t) br' :
  PSBTInput.fromReader br = Ok (input, br') -> decodedInput input.
Proof.
  unfold PSBTInput.fromReader, PSBTInput.read. intros E.
  eapply PSBTInput_readLoop_decoded; [exact E|apply decodedInput_new].
Qed.

End DecodedInput.

(** ** What PSBTInput.write puts on the wire *)

Lemma writeVarBytes_keyed (type : byte) (material : bytes)
      (bw : bufio.BufferWriter) :
  bufio.writeBytes material
    (bufio.writeU8 (u8 type) (bufio.writeVarint (len material + 1) bw))
  = bufio.writeVarBytes (type :: material) bw.
Proof.
  unfold bufio.writeVarBytes, bufio.writeBytes, bufio.writeU8.
  replace (len (type :: material)) with (len material + 1)
    by (unfold len; cbn [List.length]; lia).
  cbn [bufio.le_bytes]. rewrite byte_of_Z_u8, <- app_assoc. reflexivity.
Qed.

Lemma writeVarBytes_key1 (type : byte) (bw : bufio.BufferWriter) :
  bufio.writeU8 (u8 type) (bufio.writeVarint 1 bw)
  = bufio.writeVarBytes [type] bw.
Proof.
  rewrite <- writeVarBytes_keyed. unfold bufio.writeBytes.
  now rewrite app_nil_r.
Qed.

Lemma signatureRecords_cons (entry : bytes * (bytes * bytes))
      (sigs : BufferMap.t (bytes * bytes)) :
  signatureRecords (entry :: sigs)
  = record (x02 :: fst (snd entry)) (snd (snd entry)) ++ signatureRecords sigs.
Proof. reflexivity. Qed.

Lemma write_signatures (sigs : BufferMap.t (bytes * bytes)) :
  forall bw : bufio.BufferWriter,
    fold_left
      (fun bw (sigpair : bytes * bytes) =>
         bufio.writeVarBytes (snd sigpair)
           (bufio.writeBytes (fst sigpair)
              (bufio.writeU8 common.inputTypes.PARTIAL_SIG
                 (bufio.writeVarint (len (fst sigpair) + 1) bw))))
      (BufferMap.values sigs) bw
    = bw ++ signatureRecords sigs.
Proof.
  unfold BufferMap.values.
  induction sigs as [|[hash [pubkey signature]] sigs IH]; intros bw;
    cbn [map fold_left snd fst].
  - now rewrite app_nil_r.
  - rewrite IH, signatureRecords_cons. cbn [fst snd].
    change common.inputTypes.PARTIAL_SIG with (u8 x02).
    rewrite writeVarBytes_keyed, record_app.
    rewrite (writeVarBytes_app signature), (writeVarBytes_app _ bw).
    now rewrite <- !app_assoc.
Qed.

Section InputWire.
Context `{Collaborators}.

Lemma PSBTInput_write_records (input : PSBTInput.t)
        (bw : bufio.BufferWriter) :
  PSBTInput.write input bw
  = bw ++ utxoRecord input
       ++ (if truthy (PSBTInput.script input)
              || truthy (PSBTInput.witnessStack input)
           then []
           else signatureRecords (PSBTInput.signatures input)
                ++ sighashRecord (PSBTInput.hashType input)).
Proof.
  unfold PSBTInput.write, utxoRecord.
  set (bw1 := match PSBTInput.tx input with
              | Some _ => _ | None => _ end).
  assert (H1 : bw1 = bw ++ match PSBTInput.tx input with
                           | Some tx => record [x00] (TX_toRaw tx)
                           | None =>
                               match PSBTInput.output input with
                               | Some output => record [x01] (Output_toRaw output)
                               | None => []
                               end
                           end).
  { subst bw1.
    destruct (PSBTInput.tx input) as [tx|];
      [|destruct (PSBTInput.output input) as [o|]].
    - change common.inputTypes.NON_WITNESS_UTXO with (u8 x00).
      rewrite writeVarBytes_key1, <- (app_nil_r (record _ _)), record_app.
      rewrite writeVarBytes_app, (writeVarBytes_app _ bw), app_nil_r.
      now rewrite <- app_assoc.
    - change common.inputTypes.WITNESS_UTXO with (u8 x01).
      rewrite writeVarBytes_key1, <- (app_nil_r (record _ _)), record_app.
      rewrite writeVarBytes_app, (writeVarBytes_app _ bw), app_nil_r.
      now rewrite <- app_assoc.
    - now rewrite app_nil_r. }
  clearbody bw1. subst bw1.
  destruct (truthy (PSBTInput.script input));
    destruct (truthy (PSBTInput.witnessStack input)); cbn [negb andb orb];
    rewrite ?app_nil_r; try reflexivity.
  cbv zeta. rewrite write_signatures.
  unfold sighashRecord. destruct (0 <? PSBTInput.hashType input).
  - change common.inputTypes.SIGHASH with (u8 x03).
    rewrite writeVarBytes_key1.
    change (bufio.writeU32 ?v (bufio.writeVarint 4 ?w))
      with (bufio.writeVarBytes (bufio.le_bytes 4 v) w).
    rewrite writeVarBytes_app, (writeVarBytes_app [x03]).
    rewrite <- (app_nil_r (record _ _)), record_app, app_nil_r.
    now rewrite <- !app_assoc.
  - now rewrite app_nil_r, <- app_assoc.
Qed.

(** X7.  [PSBTInput.write] only appends.  Without finalized script and
    witness stack it appends the UTXO record, then one record per
    signature in the order of the map, then the sighash record when the
    type is positive; with a finalized script or witness stack it appends
    the UTXO record alone.  Nothing else of the input is written. *)
Theorem PSBTInput_write_layout (input : PSBTInput.t)
        (bw : bufio.BufferWriter) :
  PSBTInput.write input bw = bw ++ PSBTInput.write input []
  /\ (PSBTInput.script input = None /\ PSBTInput.witnessStack input = None
      /\ PSBTInput.write input []
         = utxoRecord input
           ++ signatureRecords (PSBTInput.signatures input)
           ++ sighashRecord (PSBTInput.hashType input)
      \/ (PSBTInput.script input <> None
          \/ PSBTInput.witnessStack input <> None)
         /\ PSBTInput.write input [] = utxoRecord input).
Proof.
  split.
  - now rewrite (PSBTInput_write_records input bw),
      (PSBTInput_write_records input []).
  - rewrite PSBTInput_write_records. cbn [app].
    destruct (PSBTInput.script input) as [script|];
      destruct (PSBTInput.witnessStack input) as [stack|];
      cbn [truthy orb]; rewrite ?app_nil_r.
    + right. split; [left; discriminate|reflexivity].
    + right. split; [left; discriminate|reflexivity].
    + right. split; [right; discriminate|reflexivity].
    + left. auto.
Qed.

End InputWire.

Section InputRoundTrip.
Context `{Collaborators}.

Lemma PSBTInput_read_signature_records (sigs : BufferMap.t (bytes * bytes)) :
  forall (self : PSBTInput.t) (rest : bytes),
    Forall signatureEntry sigs ->
    Forall (fun entry : bytes * (bytes * bytes) =>
              len (snd (snd entry)) <= bufio.MAX_SAFE_INTEGER) sigs ->
    NoDup (map fst (PSBTInput.signatures self ++ sigs)) ->
    PSBTInput.read self (signatureRecords sigs ++ rest)
    = PSBTInput.read
        (PSBTInput.set_signatures self (PSBTInput.signatures self ++ sigs))
        rest.
Proof.
  induction sigs as [|[hash [pubkey signature]] sigs IH];
    intros self rest Hs Hl Hn.
  - rewrite app_nil_r. destruct self; reflexivity.
  - inversion Hs as [|? ? (Hh & Hv & Hk) Hs']; subst.
    inversion Hl as [|? ? Hls Hl']; subst.
    cbn [fst snd] in *. subst hash.
    rewrite signatureRecords_cons, <- app_assoc. cbn [fst snd].
    rewrite record_app, PSBTInput_read_record;
      [|discriminate|apply len_cons_bound; lia].
    rewrite readField_PARTIAL_SIG by assumption. cbn [bind].
    assert (Hfresh : ~ In (hash160_digest pubkey)
                          (map fst (PSBTInput.signatures self))).
    { rewrite map_app in Hn. apply NoDup_remove_2 in Hn.
      intros Hi. apply Hn. apply in_or_app. now left. }
    rewrite BufferMap_set_fresh by exact Hfresh.
    rewrite IH.
    + destruct self. cbn [PSBTInput.set_signatures PSBTInput.signatures
                            PSBTInput.tx PSBTInput.output PSBTInput.redeem
                            PSBTInput.redeemWitness PSBTInput.script
                            PSBTInput.witnessStack PSBTInput.hashType
                            PSBTInput.paths PSBTInput.unknown].
      now rewrite <- app_assoc.
    + exact Hs'.
    + exact Hl'.
    + destruct self. cbn [PSBTInput.set_signatures PSBTInput.signatures] in *.
      now rewrite <- app_assoc.
Qed.

Lemma PSBTInput_read_sighash_record (self : PSBTInput.t) (hashType : Z)
      (rest : bytes) :
  PSBTInput.hashType self = 0 -> uint32 hashType ->
  PSBTInput.read self (sighashRecord hashType ++ rest)
  = PSBTInput.read (PSBTInput.set_hashType self hashType) rest.
Proof.
  intros H0 Hu. unfold sighashRecord.
  destruct (0 <? hashType) eqn:E.
  - rewrite record_app, PSBTInput_read_record
      by (discriminate || (vm_compute; congruence)).
    rewrite readField_SIGHASH by reflexivity.
    rewrite H0. cbn [Z.eqb assert bind].
    rewrite readVarBytes_written
      by (unfold len; rewrite le_bytes_length; vm_compute; congruence).
    cbn [bind]. unfold bufio.readU32_at.
    cbn [Z.leb Z.compare assert bind Z.to_nat skipn].
    rewrite <- (app_nil_r (bufio.le_bytes 4 hashType)).
    change (bufio.le_bytes 4 hashType) with (bufio.writeU32 hashType []).
    rewrite readU32_written by exact Hu. reflexivity.
  - cbn [app]. assert (hashType = 0)
      by (apply Z.ltb_ge in E; unfold uint32 in Hu; lia).
    subst hashType. rewrite <- H0. now rewrite set_hashType_same.
Qed.

Lemma PSBTInput_read_utxo_record (input : PSBTInput.t) (rest : bytes) :
  encodableInput input ->
  PSBTInput.read PSBTInput.new (utxoRecord input ++ rest)
  = PSBTInput.read
      (PSBTInput.mk (PSBTInput.tx input) (PSBTInput.output input)
                    None None None None 0 [] [] [])
      rest.
Proof.
  intros (_ & _ & _ & _ & _ & _ & _ & _ & _ & _ & Hutxo).
  unfold utxoRecord.
  destruct (PSBTInput.tx input) as [tx|];
    destruct (PSBTInput.output input) as [o|]; try contradiction.
  - destruct Hutxo as [Hr Hl].
    rewrite record_app, PSBTInput_read_record
      by (discriminate || (vm_compute; congruence)).
    unfold PSBTInput.readField. cbn [nth].
    change (u8 x00 =? common.inputTypes.NON_WITNESS_UTXO) with true.
    cbv iota. cbn [PSBTInput.new PSBTInput.tx truthy negb assert bind].
    rewrite readVarBytes_written by exact Hl. cbn [bind].
    rewrite Hr. reflexivity.
  - destruct Hutxo as [Hr Hl].
    rewrite record_app, PSBTInput_read_record
      by (discriminate || (vm_compute; congruence)).
    unfold PSBTInput.readField. cbn [nth].
    change (u8 x01 =? common.inputTypes.NON_WITNESS_UTXO) with false.
    change (u8 x01 =? common.inputTypes.WITNESS_UTXO) with true.
    cbv iota. cbn [PSBTInput.new PSBTInput.output truthy negb assert bind].
    rewrite readVarBytes_written by exact Hl. cbn [bind].
    rewrite Hr. reflexivity.
  - reflexivity.
Qed.

Lemma PSBTInput_read_written (input : PSBTInput.t) (rest : bytes) :
  encodableInput input ->
  PSBTInput.fromReader (PSBTInput.write input [] ++ x00 :: rest)
  = Ok (input, rest).
Proof.
  intros He. pose proof He as (Hr & Hrw & Hs & Hw & Hp & Hu & Hh & Hse
                               & Hn & Hl & _).
  unfold PSBTInput.fromReader.
  rewrite PSBTInput_write_records, Hs, Hw. cbn [truthy orb app].
  rewrite <- !app_assoc.
  rewrite PSBTInput_read_utxo_record by exact He.
  rewrite PSBTInput_read_signature_records by assumption.
  cbn [PSBTInput.set_signatures PSBTInput.signatures PSBTInput.tx
       PSBTInput.output PSBTInput.redeem PSBTInput.redeemWitness
       PSBTInput.script PSBTInput.witnessStack PSBTInput.hashType
       PSBTInput.paths PSBTInput.unknown app].
  rewrite PSBTInput_read_sighash_record by (reflexivity || assumption).
  rewrite PSBTInput_read_separator.
  destruct input. cbn in Hr, Hrw, Hs, Hw, Hp, Hu. subst. reflexivity.
Qed.

End InputRoundTrip.

Section GlobalRecords.
Context `{Collaborators}.

(** ** Unknown records of the global scope *)

Lemma PSBT_readField_unknown (self : PSBT.t) (key value : bytes)
      (br : bufio.BufferReader) :
  0 < keyType key ->
  BufferMap.has (PSBT.unknown self) key = false ->
  len value <= bufio.MAX_SAFE_INTEGER ->
  PSBT.readField self key (bufio.writeVarBytes value [] ++ br)
  = Ok (PSBT.set_unknown self
          (BufferMap.set (PSBT.unknown self) key value), br).
Proof.
  unfold keyType. intros Ht Hh Hl. unfold PSBT.readField.
  replace (u8 (nth 0 key x00) =? common.globalTypes.UNSIGNED_TX) with false
    by (symmetry; apply Z.eqb_neq; unfold common.globalTypes.UNSIGNED_TX; lia).
  rewrite Hh. cbn [negb assert bind].
  rewrite readVarBytes_written by exact Hl. reflexivity.
Qed.

Lemma record_length (key value rest : bytes) :
  (List.length rest < List.length (record key value ++ rest))%nat.
Proof.
  rewrite record_app.
  pose proof (writeVarBytes_nonempty key []) as Hk.
  rewrite !length_app in *. cbn [List.length] in Hk. lia.
Qed.

Lemma PSBT_readGlobal_unknown_records (entries : list (bytes * bytes)) :
  forall (fuel : nat) (self : PSBT.t) (rest : bytes),
    Forall (unknownEntry 0) entries ->
    Forall framedEntry entries ->
    NoDup (map fst (PSBT.unknown self ++ entries)) ->
    (List.length (records entries ++ rest) < fuel)%nat ->
    PSBT.readGlobal fuel self (records entries ++ rest)
    = PSBT.readGlobal (S (List.length rest))
        (PSBT.set_unknown self (PSBT.unknown self ++ entries)) rest.
Proof.
  induction entries as [|[key value] entries IH];
    intros fuel self rest Hu Hf Hn Hfuel.
  - rewrite app_nil_r. cbn [records map List.concat app] in *.
    destruct self. cbn [PSBT.set_unknown PSBT.unknown PSBT.inputs
                          PSBT.outputs PSBT.mtx].
    apply PSBT_readGlobal_fuel; lia.
  - inversion Hu as [|? ? Hk Hu']; subst.
    inversion Hf as [|? ? [Hlk Hlv] Hf']; subst.
    cbn [fst snd] in *. unfold unknownEntry in Hk. cbn [fst] in Hk.
    rewrite records_cons in *. cbn [fst snd] in *.
    pose proof (record_length key value (records entries ++ rest)) as Hrl.
    destruct fuel as [|fuel]; [inversion Hfuel|].
    rewrite record_app, PSBT_readGlobal_record;
      [|eapply keyType_nonempty; [|exact Hk]; lia|exact Hlk].
    assert (Hfresh : ~ In key (map fst (PSBT.unknown self))).
    { rewrite map_app in Hn. cbn [map fst] in Hn.
      apply NoDup_remove_2 in Hn.
      intros Hi. apply Hn. apply in_or_app. now left. }
    rewrite PSBT_readField_unknown by (auto using BufferMap_has_fresh).
    cbn [bind]. rewrite BufferMap_set_fresh by exact Hfresh.
    rewrite IH.
    + destruct self. cbn [PSBT.set_unknown PSBT.unknown PSBT.inputs
                            PSBT.outputs PSBT.mtx].
      now rewrite <- app_assoc.
    + exact Hu'.
    + exact Hf'.
    + destruct self. cbn [PSBT.set_unknown PSBT.unknown] in *.
      now rewrite <- app_assoc.
    + lia.
Qed.

End GlobalRecords.

Section PSBTRoundTrip.
Context `{Collaborators}.

Lemma PSBT_write_unknown_records (entries : list (bytes * bytes)) :
  forall bw : bufio.BufferWriter,
    fold_left
      (fun bw (entry : bytes * bytes) =>
         let '(key, value) := entry in
         bufio.writeVarBytes value (bufio.writeVarBytes key bw))
      entries bw
    = bw ++ records entries.
Proof.
  induction entries as [|[key value] entries IH]; intros bw;
    cbn [fold_left].
  - now rewrite app_nil_r.
  - rewrite IH. unfold records. cbn [map List.concat fst snd].
    rewrite record_app.
    rewrite (writeVarBytes_app value), (writeVarBytes_app key bw).
    now rewrite <- !app_assoc.
Qed.

Lemma PSBT_write_input_scopes (inputs : list PSBTInput.t) :
  forall bw : bufio.BufferWriter,
    fold_left
      (fun bw input =>
         bufio.writeU8 common.SEPARATOR (PSBTInput.write input bw))
      inputs bw
    = bw ++ inputScopes inputs.
Proof.
  induction inputs as [|input inputs IH]; intros bw; cbn [fold_left].
  - now rewrite app_nil_r.
  - rewrite IH. unfold inputScopes. cbn [map List.concat].
    rewrite (PSBTInput_write_records input bw).
    rewrite (PSBTInput_write_records input []).
    unfold bufio.writeU8. cbn [app].
    change (bufio.le_bytes 1 common.SEPARATOR) with [x00].
    now rewrite <- !app_assoc.
Qed.

(** What [PSBT.write] puts on the wire, over a transaction writer that
    appends [raw], as many bytes as [getSize] announces. *)
Lemma PSBT_written_records (psbt : PSBT.t) (tx : TX.t) (raw : bytes) :
  PSBT.mtx psbt = Some tx ->
  (forall bw, MTX_toWriter tx bw = bw ++ raw) ->
  len raw = MTX_getSize tx ->
  PSBT.written psbt
  = Ok (envelope ++ record [x00] raw ++ records (PSBT.unknown psbt)
        ++ x00 :: inputScopes (PSBT.inputs psbt)).
Proof.
  intros Hm Hw Hl. unfold PSBT.written, PSBT.write. rewrite Hm.
  rewrite PSBT_write_input_scopes. unfold BufferMap.entries.
  unfold bufio.writeU8 at 1.
  rewrite PSBT_write_unknown_records, Hw, <- Hl.
  change common.globalTypes.UNSIGNED_TX with (u8 x00).
  rewrite writeVarBytes_key1.
  change (bufio.writeU8 common.MAGIC_SEP (bufio.writeU32BE common.MAGIC []))
    with envelope.
  change (bufio.writeVarint (len raw) ?w ++ raw)
    with (bufio.writeVarBytes raw w).
  rewrite writeVarBytes_app, (writeVarBytes_app [x00]).
  rewrite <- (app_nil_r (record [x00] raw)), record_app, app_nil_r.
  change (bufio.le_bytes 1 common.SEPARATOR) with [x00].
  rewrite <- !app_assoc. reflexivity.
Qed.

Lemma PSBT_readInputs_written (inputs : list PSBTInput.t) :
  forall (acc : list PSBTInput.t) (rest : bytes),
    Forall encodableInput inputs ->
    PSBT.readInputs (List.length inputs) acc (inputScopes inputs ++ rest)
    = Ok (acc ++ inputs, rest).
Proof.
  induction inputs as [|input inputs IH]; intros acc rest He;
    cbn [List.length PSBT.readInputs].
  - now rewrite app_nil_r.
  - inversion He as [|? ? Hi He']; subst.
    unfold inputScopes. cbn [map List.concat]. rewrite <- !app_assoc.
    cbn [app]. rewrite PSBTInput_read_written by exact Hi. cbn [bind].
    fold (inputScopes inputs). rewrite IH by exact He'.
    now rewrite <- app_assoc.
Qed.

(** X8.  An input record that holds only what [write] emits (a UTXO of
    one kind, signatures, a sighash type) is read back from what [write]
    wrote, followed by the separator: the decoder returns the same record
    and stands behind the separator.  So the loop of [PSBT.read] reads a
    run of such scopes back, record by record. *)
Theorem PSBTInput_read_write (input : PSBTInput.t)
        (inputs : list PSBTInput.t) (rest : bytes) :
  encodableInput input ->
  Forall encodableInput inputs ->
  PSBTInput.fromReader (PSBTInput.write input [] ++ x00 :: rest)
  = Ok (input, rest)
  /\ PSBT.readInputs (List.length inputs) [] (inputScopes inputs ++ rest)
     = Ok (inputs, rest).
Proof.
  intros Hi Hs. split.
  - now apply PSBTInput_read_written.
  - now rewrite PSBT_readInputs_written.
Qed.

(** X9.  Over collaborators whose [getSize] is the length of what they
    write, [PSBTInput.getSize] is the length of what [PSBTInput.write]
    writes, for every input record. *)
Theorem PSBTInput_getSize_write (input : PSBTInput.t) :
  (forall tx, TX_getSize tx = len (TX_toRaw tx)) ->
  (forall o, Output_getSize o = len (Output_toRaw o)) ->
  PSBTInput.getSize input = len (PSBTInput.write input []).
Proof.
  intros HT HO.
  rewrite (PSBTInput_write_length HT HO input []).
  unfold len at 1. cbn [List.length]. lia.
Qed.

(** X10.  Decoding what [write] encoded gives the PSBT back, for a PSBT that
    holds only what [write] emits. *)
Theorem PSBT_fromRaw_written (psbt : PSBT.t) :
  encodablePSBT psbt ->
  exists data, PSBT.written psbt = Ok data /\ PSBT.fromRaw data = Ok psbt.
Proof.
  intros (Ho & Hu & Hn & Hf & Hi & tx & raw & Hm & Hc & Hs & Hw & Hl & Hb
          & Hr).
  eexists. split; [apply (PSBT_written_records psbt tx raw); assumption|].
  unfold PSBT.fromRaw. rewrite PSBT_read_envelope.
  pose proof (record_length [x00] raw
                (records (PSBT.unknown psbt)
                 ++ x00 :: inputScopes (PSBT.inputs psbt))) as Hrl.
  rewrite record_app, PSBT_readGlobal_record by (vm_compute; congruence).
  rewrite (PSBT_readField_UNSIGNED_TX PSBT.new [] raw tx)
    by (assumption || reflexivity).
  rewrite Hs. cbn [bind].
  rewrite <- record_app in *.
  rewrite PSBT_readGlobal_unknown_records;
    [|exact Hu|exact Hf|exact Hn|lia].
  rewrite PSBT_readGlobal_separator.
  cbn [bind PSBT.set_unknown PSBT.set_mtx PSBT.mtx PSBT.new PSBT.inputs
       PSBT.outputs PSBT.unknown BufferMap.empty app].
  rewrite <- Hc, <- (app_nil_r (inputScopes _)).
  rewrite PSBT_readInputs_written by exact Hi. cbn [bind app].
  destruct psbt. cbn [PSBT.set_inputs PSBT.mtx PSBT.outputs PSBT.unknown
                        PSBT.inputs] in *. subst. reflexivity.
Qed.

End PSBTRoundTrip.

(** ** The envelope and the global scope: what is refused *)

Lemma envelope_bytes : envelope = [x70; x73; x62; x74; xff].
Proof. reflexivity. Qed.

Section Envelope.
Context `{Collaborators}.

Lemma PSBT_read_magic (self : PSBT.t) (data : bytes) (psbt : PSBT.t) br :
  PSBT.read self data = Ok (psbt, br) -> exists rest, data = envelope ++ rest.
Proof.
  unfold PSBT.read. intros E.
  apply bind_Ok_inv in E as ([magic br1] & Em & E).
  apply bind_Ok_inv in E as ([sep br2] & Es & E).
  apply bind_Ok_inv in E as (u & Ha & _).
  apply assert_Ok_true in Ha. apply andb_true_iff in Ha as [Hm Hs].
  apply Z.eqb_eq in Hm, Hs. subst magic sep.
  apply readU32BE_inv in Em as [-> _].
  unfold bufio.readU8 in Es.
  apply bind_Ok_inv in Es as ([bs br3] & Er & Es). injection Es as Hv <-.
  apply readBytes_length in Er as [Hl ->].
  assert (Hn : List.length bs = 1%nat) by (unfold len in Hl; lia).
  destruct bs as [|b [|? ?]]; try discriminate Hn.
  cbn [bufio.le_value] in Hv. rewrite Z.mul_0_r, Z.add_0_r in Hv.
  assert (b = xff) by (rewrite <- (byte_of_Z_u8 b), Hv; reflexivity).
  subst b. exists br3. reflexivity.
Qed.

(** X11.  The decoder accepts only data that starts with the magic 70 73 62
    74 and the separator ff; data shorter than five bytes is a FrameError,
    five other bytes are a MalformedEnvelope. *)
Theorem PSBT_fromRaw_envelope (data : bytes) :
  (forall psbt, PSBT.fromRaw data = Ok psbt -> firstn 5 data = envelope)
  /\ ((List.length data < 5)%nat -> PSBT.fromRaw data = Err FrameError)
  /\ ((5 <= List.length data)%nat -> firstn 5 data <> envelope ->
      PSBT.fromRaw data = Err MalformedEnvelope).
Proof.
  split; [|split].
  - intros psbt E. unfold PSBT.fromRaw in E.
    apply bind_Ok_inv in E as ([p br] & E & _).
    apply PSBT_read_magic in E as [rest ->]. reflexivity.
  - intros Hl. unfold PSBT.fromRaw, PSBT.read.
    destruct (bufio.readU32BE data) as [[magic br1]|e] eqn:Em; cbn [bind].
    + destruct (bufio.readU8 br1) as [[sep br2]|e] eqn:Es; cbn [bind].
      * exfalso. apply readU32BE_inv in Em as [-> _].
        apply readU8_shrinks in Es.
        rewrite length_app, be_bytes_length in Hl. lia.
      * apply readU8_error in Es. now subst e.
    + unfold bufio.readU32BE in Em.
      destruct (bufio.readBytes 4 data) as [[bs br]|e'] eqn:Eb;
        cbn [bind] in Em; [discriminate|].
      apply readBytes_error in Eb. congruence.
  - intros Hl Hne.
    destruct data as [|b0 [|b1 [|b2 [|b3 [|b4 rest]]]]];
      try (cbn [List.length] in Hl; lia).
    cbn [firstn] in Hne. unfold PSBT.fromRaw, PSBT.read.
    change (b0 :: b1 :: b2 :: b3 :: b4 :: rest)
      with ([b0; b1; b2; b3] ++ [b4] ++ rest).
    unfold bufio.readU32BE. rewrite readBytes_exact by reflexivity.
    cbn [bind]. unfold bufio.readU8. rewrite readBytes_exact by reflexivity.
    cbn [bind].
    destruct ((bufio.be_value [b0; b1; b2; b3] =? common.MAGIC)
              && (bufio.le_value [b4] =? common.MAGIC_SEP)) eqn:Ec;
      [|reflexivity].
    exfalso. apply Hne. apply andb_true_iff in Ec as [Hm Hs].
    apply Z.eqb_eq in Hm, Hs.
    pose proof (be_bytes_be_value [b0; b1; b2; b3]) as H4.
    rewrite Hm in H4. cbn [List.length] in H4.
    cbn [bufio.le_value] in Hs. rewrite Z.mul_0_r, Z.add_0_r in Hs.
    assert (b4 = xff) by (rewrite <- (byte_of_Z_u8 b4), Hs; reflexivity).
    subst b4. change envelope with (bufio.be_bytes 4 common.MAGIC ++ [xff]).
    rewrite H4. reflexivity.
Qed.

(** X12.  A global scope that ends, at its separator or with the data,
    without a transaction record is a MissingRequiredField, whatever
    unknown records it holds. *)
Theorem PSBT_missing_transaction_refused (entries : list (bytes * bytes))
        (rest : bytes) :
  Forall (unknownEntry 0) entries ->
  Forall framedEntry entries ->
  NoDup (map fst entries) ->
  PSBT.fromRaw (envelope ++ records entries ++ x00 :: rest)
  = Err MissingRequiredField
  /\ PSBT.fromRaw (envelope ++ records entries) = Err MissingRequiredField.
Proof.
  intros Hu Hf Hn. unfold PSBT.fromRaw. split.
  - rewrite PSBT_read_envelope.
    rewrite PSBT_readGlobal_unknown_records by (assumption || lia).
    rewrite PSBT_readGlobal_separator. reflexivity.
  - rewrite <- (app_nil_r (records entries)).
    rewrite PSBT_read_envelope.
    rewrite PSBT_readGlobal_unknown_records by (assumption || lia).
    reflexivity.
Qed.

(** X13.  A second transaction record in the global scope is a
    DuplicateField, before its value is looked at. *)
Theorem PSBT_second_transaction_refused (extra1 extra2 rawTX rest : bytes)
        (tx : TX.t) :
  len (x00 :: extra1) <= bufio.MAX_SAFE_INTEGER ->
  len (x00 :: extra2) <= bufio.MAX_SAFE_INTEGER ->
  len rawTX <= bufio.MAX_SAFE_INTEGER ->
  MTX_fromRaw rawTX = Ok tx ->
  PSBT.isTransactionUnsigned tx = true ->
  PSBT.fromRaw (envelope ++ record (x00 :: extra1) rawTX
                ++ bufio.writeVarBytes (x00 :: extra2) [] ++ rest)
  = Err DuplicateField.
Proof.
  intros H1 H2 Hl Hp Hu. unfold PSBT.fromRaw. rewrite PSBT_read_envelope.
  pose proof (record_length (x00 :: extra1) rawTX
                (bufio.writeVarBytes (x00 :: extra2) [] ++ rest)) as Hrl.
  rewrite record_app, PSBT_readGlobal_record by (assumption || discriminate).
  rewrite (PSBT_readField_UNSIGNED_TX PSBT.new extra1 rawTX tx)
    by (assumption || reflexivity).
  rewrite Hu. cbn [bind]. rewrite record_app in Hrl.
  rewrite (PSBT_readGlobal_fuel _
             (S (List.length (bufio.writeVarBytes (x00 :: extra2) [] ++ rest))))
    by lia.
  rewrite PSBT_readGlobal_record by (assumption || discriminate).
  unfold PSBT.readField. cbn [nth].
  change (u8 x00 =? common.globalTypes.UNSIGNED_TX) with true. cbv iota.
  reflexivity.
Qed.

Lemma PSBT_fromRaw_transaction (data : bytes) (psbt : PSBT.t) :
  PSBT.fromRaw data = Ok psbt -> exists tx, PSBT.mtx psbt = Some tx.
Proof.
  unfold PSBT.fromRaw, PSBT.read. intros E.
  apply bind_Ok_inv in E as ([p br] & E & Ep). injection Ep as ->.
  apply bind_Ok_inv in E as ([magic br1] & _ & E).
  apply bind_Ok_inv in E as ([sep br2] & _ & E).
  apply bind_Ok_inv in E as (? & _ & E).
  apply bind_Ok_inv in E as ([self br3] & _ & E).
  destruct (PSBT.mtx self) as [tx|] eqn:Em; [|discriminate].
  apply bind_Ok_inv in E as ([inputs br4] & _ & E).
  injection E as <- _. exists tx. exact Em.
Qed.

(** X14.  No PSBT that comes out of the decoder is null. *)
Theorem PSBT_decoded_not_null (data : bytes) (psbt : PSBT.t) :
  PSBT.fromRaw data = Ok psbt -> PSBT.isNull psbt = false.
Proof.
  intros E. apply PSBT_fromRaw_transaction in E as [tx Hm].
  unfold PSBT.isNull. rewrite Hm. reflexivity.
Qed.

Lemma PSBT_readInputs_decoded (count : nat) :
  forall (inputs : list PSBTInput.t) (br : bufio.BufferReader) inputs' br',
    PSBT.readInputs count inputs br = Ok (inputs', br') ->
    Forall decodedInput inputs -> Forall decodedInput inputs'.
Proof.
  induction count as [|count IH]; intros inputs br inputs' br' E Hd;
    cbn [PSBT.readInputs] in E.
  - injection E as <- _. exact Hd.
  - apply bind_Ok_inv in E as ([input br1] & Ei & E).
    eapply IH; [exact E|]. apply Forall_app. split; [exact Hd|].
    constructor; [|constructor].
    eapply PSBTInput_readLoop_decoded; [exact Ei|apply decodedInput_new].
Qed.

(** X15.  Every input record of a decoded PSBT is a decoded input: what
    holds of the records of the input decoder holds of each of them. *)
Theorem PSBT_fromRaw_inputs_decoded (data : bytes) (psbt : PSBT.t) :
  PSBT.fromRaw data = Ok psbt -> Forall decodedInput (PSBT.inputs psbt).
Proof.
  unfold PSBT.fromRaw, PSBT.read. intros E.
  apply bind_Ok_inv in E as ([p br] & E & Ep). injection Ep as ->.
  apply bind_Ok_inv in E as ([magic br1] & _ & E).
  apply bind_Ok_inv in E as ([sep br2] & _ & E).
  apply bind_Ok_inv in E as (? & _ & E).
  apply bind_Ok_inv in E as ([self br3] & Eg & E).
  apply PSBT_readGlobal_records in Eg as [Hi _].
  destruct (PSBT.mtx self) as [tx|] eqn:Em; [|discriminate].
  apply bind_Ok_inv in E as ([inputs br4] & Er & E).
  injection E as <- _. cbn [PSBT.set_inputs PSBT.inputs].
  eapply PSBT_readInputs_decoded; [exact Er|].
  rewrite Hi. constructor.
Qed.

End Envelope.

(** ** Sanity is not the decoder's business *)

Lemma PSBT_isSane_false (inputs : list PSBTInput.t) (input : PSBTInput.t) :
  In input inputs -> PSBTInput.isSane input = false ->
  PSBT.allInputsSane inputs = false.
Proof.
  induction inputs as [|i inputs IH]; intros Hi Hs; [destruct Hi|].
  cbn [PSBT.allInputsSane].
  destruct (PSBTInput.isSane i) eqn:E; [|reflexivity]. cbn [negb].
  destruct Hi as [->|Hi]; [congruence|auto].
Qed.

Section Sanity.
Context `{Collaborators}.

(** X16.  An input scope with both a non-witness UTXO record and a witness
    UTXO record decodes; the input it decodes to is not sane, and neither
    is any PSBT that holds it. *)
Theorem PSBTInput_both_utxos_decode (rawTX rawOutput rest : bytes)
        (tx : TX.t) (output : Output.t) :
  len rawTX <= bufio.MAX_SAFE_INTEGER ->
  len rawOutput <= bufio.MAX_SAFE_INTEGER ->
  TX_fromRaw rawTX = Ok tx ->
  Output_fromRaw rawOutput = Ok output ->
  exists input,
    PSBTInput.fromReader
      (record [x00] rawTX ++ record [x01] rawOutput ++ x00 :: rest)
    = Ok (input, rest)
    /\ PSBTInput.tx input = Some tx
    /\ PSBTInput.output input = Some output
    /\ PSBTInput.isSane input = false
    /\ forall psbt, In input (PSBT.inputs psbt) -> PSBT.isSane psbt = false.
Proof.
  intros Hl1 Hl2 Ht Ho.
  exists (PSBTInput.set_output (PSBTInput.set_tx PSBTInput.new tx) output).
  split; [|split; [reflexivity|split; [reflexivity|split; [reflexivity|]]]].
  - unfold PSBTInput.fromReader.
    rewrite record_app, PSBTInput_read_record
      by (discriminate || (vm_compute; congruence)).
    unfold PSBTInput.readField at 1. cbn [nth].
    change (u8 x00 =? common.inputTypes.NON_WITNESS_UTXO) with true.
    cbv iota. cbn [PSBTInput.new PSBTInput.tx truthy negb assert bind].
    rewrite readVarBytes_written by exact Hl1. cbn [bind].
    rewrite Ht. cbn [bind].
    rewrite record_app, PSBTInput_read_record
      by (discriminate || (vm_compute; congruence)).
    unfold PSBTInput.readField at 1. cbn [nth].
    change (u8 x01 =? common.inputTypes.NON_WITNESS_UTXO) with false.
    change (u8 x01 =? common.inputTypes.WITNESS_UTXO) with true.
    cbv iota.
    cbn [PSBTInput.set_tx PSBTInput.new PSBTInput.output truthy negb assert
         bind].
    rewrite readVarBytes_written by exact Hl2. cbn [bind].
    rewrite Ho. cbn [bind].
    now rewrite PSBTInput_read_separator.
  - intros psbt Hi. unfold PSBT.isSane.
    eapply PSBT_isSane_false; [exact Hi|reflexivity].
Qed.

(** X17.  A SIGHASH record with a value shorter than four bytes is a
    FrameError; of a longer value the first four bytes are the type,
    little-endian, and the rest is dropped. *)
Theorem PSBTInput_sighash_value (self : PSBTInput.t) (key value rest : bytes) :
  keyType key = common.inputTypes.SIGHASH ->
  PSBTInput.hashType self = 0 ->
  len value <= bufio.MAX_SAFE_INTEGER ->
  PSBTInput.readField self key (bufio.writeVarBytes value [] ++ rest)
  = if len value <? 4 then Err FrameError
    else Ok (PSBTInput.set_hashType self
               (bufio.le_value (firstn 4 value)), rest).
Proof.
  unfold keyType. intros Et H0 Hl.
  rewrite readField_SIGHASH by exact Et. rewrite H0.
  cbn [Z.eqb assert bind]. rewrite readVarBytes_written by exact Hl.
  cbn [bind]. unfold bufio.readU32_at.
  cbn [Z.leb Z.compare assert bind Z.to_nat skipn].
  unfold bufio.readU32, bufio.readBytes, bufio.left.
  destruct (len value <? 4) eqn:E.
  - apply Z.ltb_lt in E.
    replace (4 <=? len value) with false by (symmetry; apply Z.leb_gt; lia).
    reflexivity.
  - apply Z.ltb_ge in E.
    replace (4 <=? len value) with true by (symmetry; apply Z.leb_le; lia).
    reflexivity.
Qed.

End Sanity.

(** ** Merge against a shorter PSBT *)

Lemma PSBT_mergeInputs_short (mine : list PSBTInput.t) :
  forall (i : nat) (theirs : list PSBTInput.t),
    (i <= List.length theirs)%nat ->
    (List.length theirs < i + List.length mine)%nat ->
    PSBT.mergeInputs i mine theirs = Err AssertionFailed.
Proof.
  induction mine as [|input mine IH]; intros i theirs Hi Hl;
    cbn [PSBT.mergeInputs List.length] in *; [lia|].
  destruct (nth_error theirs i) as [other|] eqn:E; [|reflexivity].
  assert (i < List.length theirs)%nat
    by (apply nth_error_Some; congruence).
  rewrite IH by lia. reflexivity.
Qed.

(** X18.  Merging with a PSBT that has fewer input records fails with the
    assertion on [psbt.inputs[i]]. *)
Theorem PSBT_merge_fewer_inputs (A B : PSBT.t) :
  (List.length (PSBT.inputs B) < List.length (PSBT.inputs A))%nat ->
  PSBT.merge A B = Err AssertionFailed.
Proof.
  intros Hl. unfold PSBT.merge.
  rewrite PSBT_mergeInputs_short by (cbn; lia). reflexivity.
Qed.

(** ** The further statements at concrete data *)

Lemma Path_toRaw_fromRaw_witness :
  Path.fromRaw (Reference.hex "d90c6a4f2c00008000000080000000800100000007000000")
  = Ok (Path.mk Examples.fingerPrint Examples.indexes)
  /\ Path.toRaw (Path.mk Examples.fingerPrint Examples.indexes)
     = Reference.hex "d90c6a4f2c00008000000080000000800100000007000000".
Proof.
  assert (E : Path.fromRaw
                (Reference.hex
                   "d90c6a4f2c00008000000080000000800100000007000000")
              = Ok (Path.mk Examples.fingerPrint Examples.indexes))
    by (vm_compute; reflexivity).
  split; [exact E|]. exact (proj1 (Path_toRaw_fromRaw _ _ E)).
Defined.

Lemma PSBTInput_unknown_records_kept_witness :
  Forall (unknownEntry 8) [([xfc; x01], [xaa]); ([xfd], [])]
  /\ NoDup (map fst [([xfc; x01], [xaa]); ([xfd], @nil byte)])
  /\ @PSBTInput.fromReader Reference.collaborators
       (records [([xfc; x01], [xaa]); ([xfd], [])] ++ x00 :: [x00])
     = Ok (PSBTInput.set_unknown PSBTInput.new
             [([xfc; x01], [xaa]); ([xfd], [])], [x00]).
Proof.
  assert (Hu : Forall (unknownEntry 8) [([xfc; x01], [xaa]); ([xfd], [])])
    by (repeat constructor).
  assert (Hn : NoDup (map fst [([xfc; x01], [xaa]); ([xfd], @nil byte)])).
  { repeat constructor; cbn [map fst In]; intuition discriminate. }
  split; [exact Hu|]. split; [exact Hn|].
  apply (@PSBTInput_unknown_records_kept Reference.collaborators);
    [exact Hu| |exact Hn].
  repeat constructor; vm_compute; congruence.
Defined.

Lemma PSBTInput_invalid_key_refused_witness :
  keyType [x02; xaa] = common.inputTypes.PARTIAL_SIG
  /\ len [x02; xaa] <> 34 /\ len [x02; xaa] <> 66
  /\ @PSBTInput.readField Reference.collaborators PSBTInput.new [x02; xaa]
       [x00]
     = Err InvalidKeyMaterial.
Proof.
  split; [reflexivity|]. split; [discriminate|]. split; [discriminate|].
  apply (@PSBTInput_invalid_key_refused Reference.collaborators).
  left. split; [reflexivity|]. left. split; discriminate.
Defined.

Lemma PSBTInput_fromReader_decoded_witness :
  @PSBTInput.fromReader Reference.collaborators
    (record (x02 :: Examples.K1) Examples.sig1 ++ [x00])
  = Ok (PSBTInput.set_signatures PSBTInput.new
          [(Reference.digest20 Examples.K1, (Examples.K1, Examples.sig1))],
        [])
  /\ @decodedInput Reference.collaborators
       (PSBTInput.set_signatures PSBTInput.new
          [(Reference.digest20 Examples.K1, (Examples.K1, Examples.sig1))]).
Proof.
  assert (E : @PSBTInput.fromReader Reference.collaborators
                (record (x02 :: Examples.K1) Examples.sig1 ++ [x00])
              = Ok (PSBTInput.set_signatures PSBTInput.new
                      [(Reference.digest20 Examples.K1,
                        (Examples.K1, Examples.sig1))], []))
    by (vm_compute; reflexivity).
  split; [exact E|].
  exact (@PSBTInput_fromReader_decoded Reference.collaborators _ _ _ E).
Defined.

(** The input of [Examples.A], with the sighash type 1. *)
Lemma encodableInput_example :
  @encodableInput Reference.collaborators
    (PSBTInput.set_hashType
       (PSBTInput.set_signatures PSBTInput.new
          [(Reference.digest20 Examples.K1, (Examples.K1, Examples.sig1))])
       1).
Proof.
  unfold encodableInput.
  cbn [PSBTInput.set_hashType PSBTInput.set_signatures PSBTInput.new
       PSBTInput.redeem PSBTInput.redeemWitness PSBTInput.script
       PSBTInput.witnessStack PSBTInput.paths PSBTInput.unknown
       PSBTInput.hashType PSBTInput.signatures PSBTInput.tx
       PSBTInput.output BufferMap.empty map fst].
  repeat (split; [reflexivity|]).
  split; [unfold uint32; lia|].
  split.
  { constructor; [|constructor]. unfold signatureEntry. cbn [fst snd].
    split; [reflexivity|]. split; [vm_compute; reflexivity|].
    left. reflexivity. }
  split; [repeat constructor; intros []|].
  split; [|exact I].
  constructor; [|constructor]. vm_compute. congruence.
Qed.

Lemma PSBTInput_read_write_witness :
  @PSBTInput.fromReader Reference.collaborators
    (@PSBTInput.write Reference.collaborators
       (PSBTInput.set_hashType
          (PSBTInput.set_signatures PSBTInput.new
             [(Reference.digest20 Examples.K1, (Examples.K1, Examples.sig1))])
          1) []
     ++ x00 :: [])
  = Ok (PSBTInput.set_hashType
          (PSBTInput.set_signatures PSBTInput.new
             [(Reference.digest20 Examples.K1, (Examples.K1, Examples.sig1))])
          1, []).
Proof.
  exact (proj1 (@PSBTInput_read_write Reference.collaborators _ [] []
                  encodableInput_example (Forall_nil _))).
Defined.

Lemma PSBTInput_getSize_write_witness :
  @PSBTInput.getSize Reference.collaborators
    (PSBTInput.set_tx PSBTInput.new Examples.tx)
  = len (@PSBTInput.write Reference.collaborators
           (PSBTInput.set_tx PSBTInput.new Examples.tx) []).
Proof.
  exact (@PSBTInput_getSize_write Reference.collaborators
           (PSBTInput.set_tx PSBTInput.new Examples.tx)
           (fun _ => eq_refl) (fun _ => eq_refl)).
Defined.

Lemma encodablePSBT_example :
  @encodablePSBT Reference.collaborators Examples.A.
Proof.
  unfold encodablePSBT, Examples.A.
  cbn [PSBT.outputs PSBT.unknown PSBT.inputs PSBT.mtx BufferMap.empty map].
  split; [reflexivity|]. split; [constructor|]. split; [constructor|].
  split; [constructor|]. split.
  { constructor; [|constructor]. unfold encodableInput.
    cbn [PSBTInput.set_signatures PSBTInput.new
         PSBTInput.redeem PSBTInput.redeemWitness PSBTInput.script
         PSBTInput.witnessStack PSBTInput.paths PSBTInput.unknown
         PSBTInput.hashType PSBTInput.signatures PSBTInput.tx
         PSBTInput.output BufferMap.empty map fst].
    repeat (split; [reflexivity|]).
    split; [unfold uint32; lia|].
    split.
    { constructor; [|constructor]. unfold signatureEntry. cbn [fst snd].
      split; [reflexivity|]. split; [vm_compute; reflexivity|].
      left. reflexivity. }
    split; [repeat constructor; intros []|].
    split; [|exact I].
    constructor; [|constructor]. vm_compute. congruence. }
  exists Examples.tx, (Reference.writeTX Examples.tx []).
  split; [reflexivity|]. split; [reflexivity|]. split; [reflexivity|].
  split; [intros bw; apply appends_writeTX|].
  split; [reflexivity|]. split; [vm_compute; congruence|].
  vm_compute. reflexivity.
Qed.

Lemma PSBT_fromRaw_written_witness :
  exists data,
    @PSBT.written Reference.collaborators Examples.A = Ok data
    /\ @PSBT.fromRaw Reference.collaborators data = Ok Examples.A.
Proof.
  exact (@PSBT_fromRaw_written Reference.collaborators Examples.A
           encodablePSBT_example).
Defined.

Lemma PSBT_missing_transaction_refused_witness :
  Forall (unknownEntry 0) [([xfc; x01], @nil byte)]
  /\ @PSBT.fromRaw Reference.collaborators
       (envelope ++ records [([xfc; x01], [])] ++ x00 :: [x00])
     = Err MissingRequiredField.
Proof.
  assert (Hu : Forall (unknownEntry 0) [([xfc; x01], @nil byte)])
    by (repeat constructor).
  split; [exact Hu|].
  apply (@PSBT_missing_transaction_refused Reference.collaborators
           [([xfc; x01], [])] [x00]); [exact Hu| |].
  - repeat constructor; vm_compute; congruence.
  - repeat constructor. intros [].
Defined.

Lemma PSBT_second_transaction_refused_witness :
  @MTX_fromRaw Reference.collaborators Examples.rawTX = Ok Examples.tx
  /\ PSBT.isTransactionUnsigned Examples.tx = true
  /\ @PSBT.fromRaw Reference.collaborators
       (envelope ++ record [x00] Examples.rawTX
        ++ bufio.writeVarBytes [x00] [] ++ bufio.writeVarBytes Examples.rawTX []
        ++ [x00; x00])
     = Err DuplicateField.
Proof.
  split; [vm_compute; reflexivity|]. split; [reflexivity|].
  apply (@PSBT_second_transaction_refused Reference.collaborators
           [] [] Examples.rawTX _ Examples.tx);
    try (vm_compute; congruence); try (vm_compute; reflexivity).
Defined.

Lemma PSBT_decoded_not_null_witness :
  @PSBT.fromRaw Reference.collaborators Examples.psbt = Ok Examples.decoded
  /\ PSBT.isNull Examples.decoded = false.
Proof.
  assert (E : @PSBT.fromRaw Reference.collaborators Examples.psbt
              = Ok Examples.decoded) by (vm_compute; reflexivity).
  split; [exact E|].
  exact (@PSBT_decoded_not_null Reference.collaborators _ _ E).
Defined.

Lemma PSBT_fromRaw_inputs_decoded_witness :
  @PSBT.fromRaw Reference.collaborators Examples.psbtRedeem
  = Ok Examples.decodedRedeem
  /\ Forall (@decodedInput Reference.collaborators)
            (PSBT.inputs Examples.decodedRedeem).
Proof.
  assert (E : @PSBT.fromRaw Reference.collaborators Examples.psbtRedeem
              = Ok Examples.decodedRedeem) by (vm_compute; reflexivity).
  split; [exact E|].
  exact (@PSBT_fromRaw_inputs_decoded Reference.collaborators _ _ E).
Defined.

Lemma PSBT_decoded_transaction_unsigned_witness :
  @PSBT.fromRaw Reference.collaborators Examples.psbt = Ok Examples.decoded
  /\ exists tx,
       PSBT.mtx Examples.decoded = Some tx
       /\ PSBT.isTransactionUnsigned tx = true
       /\ ~ Exists signedInput (TX.inputs tx).
Proof.
  assert (E : @PSBT.fromRaw Reference.collaborators Examples.psbt
              = Ok Examples.decoded) by (vm_compute; reflexivity).
  split; [exact E|].
  exact (@PSBT_decoded_transaction_unsigned Reference.collaborators _ _ E).
Defined.

Lemma PSBTInput_both_utxos_decode_witness :
  @TX_fromRaw Reference.collaborators Examples.rawTX = Ok Examples.tx
  /\ @Output_fromRaw Reference.collaborators
       (Reference.hex "e8030000000000000151")
     = Ok (Output.mk 1000 (Script.mk [x51]))
  /\ exists input,
       @PSBTInput.fromReader Reference.collaborators
         (record [x00] Examples.rawTX
          ++ record [x01] (Reference.hex "e8030000000000000151")
          ++ x00 :: [])
       = Ok (input, [])
       /\ PSBTInput.isSane input = false.
Proof.
  assert (Et : @TX_fromRaw Reference.collaborators Examples.rawTX
               = Ok Examples.tx) by (vm_compute; reflexivity).
  assert (Eo : @Output_fromRaw Reference.collaborators
                 (Reference.hex "e8030000000000000151")
               = Ok (Output.mk 1000 (Script.mk [x51])))
    by (vm_compute; reflexivity).
  split; [exact Et|]. split; [exact Eo|].
  destruct (@PSBTInput_both_utxos_decode Reference.collaborators
              Examples.rawTX (Reference.hex "e8030000000000000151") []
              Examples.tx (Output.mk 1000 (Script.mk [x51]))
              ltac:(vm_compute; congruence) ltac:(vm_compute; congruence)
              Et Eo) as (input & Hr & _ & _ & Hs & _).
  exists input. auto.
Defined.

Lemma PSBTInput_sighash_value_witness :
  keyType [x03] = common.inputTypes.SIGHASH
  /\ @PSBTInput.readField Reference.collaborators PSBTInput.new [x03]
       (bufio.writeVarBytes [x01; x00; x00; x00; xaa] [] ++ [x00])
     = Ok (PSBTInput.set_hashType PSBTInput.new 1, [x00])
  /\ @PSBTInput.readField Reference.collaborators PSBTInput.new [x03]
       (bufio.writeVarBytes [x01; x00] [] ++ [x00])
     = Err FrameError.
Proof.
  split; [reflexivity|]. split.
  - exact (@PSBTInput_sighash_value Reference.collaborators PSBTInput.new
             [x03] [x01; x00; x00; x00; xaa] [x00] eq_refl eq_refl
             ltac:(vm_compute; congruence)).
  - exact (@PSBTInput_sighash_value Reference.collaborators PSBTInput.new
             [x03] [x01; x00] [x00] eq_refl eq_refl
             ltac:(vm_compute; congruence)).
Defined.

Lemma PSBT_merge_fewer_inputs_witness :
  (List.length (PSBT.inputs PSBT.new)
   < List.length (PSBT.inputs Examples.A))%nat
  /\ PSBT.merge Examples.A PSBT.new = Err AssertionFailed.
Proof.
  split; [cbn; lia|].
  apply PSBT_merge_fewer_inputs. cbn. lia.
Defined.

Lemma PSBTInput_readField_guarded_witness :
  PSBTInput.tx (PSBTInput.set_tx PSBTInput.new Examples.tx) <> None
  /\ @PSBTInput.readField Reference.collaborators
       (PSBTInput.set_tx PSBTInput.new Examples.tx) [x00] [x00]
     = Err DuplicateField.
Proof.
  split; [discriminate|].
  apply (@PSBTInput_readField_guarded Reference.collaborators).
  left. split; [reflexivity|discriminate].
Defined.
